(** * The queue coordinator of PowerChat (bg.js)

    The background script keeps one queue record per browser tab, decides
    when the head item may be handed to the content script, and reconciles
    the outcome.  This development embeds bg.js as executable definitions in
    a small state-and-log monad over the two stores the script touches (the
    in-memory [tabState] map and [chrome.storage.local]) and proves the
    properties of the coordinator against that embedding.

    Conventions of the embedding:
    - a JavaScript string is its sequence of UTF-16 code units;
    - the message fields the script reads are JavaScript values; the
      coercions the script applies ([String], [!!], [??], [||], [===]) are
      written out;
    - a trigger (an incoming message, or the retry timer firing) is one
      step: its handler, the [maybeSendNext] it starts and the outcome of
      the [chrome.tabs.sendMessage] made there all take place before the
      next trigger is looked at.  The interleavings the awaits of the script
      allow between two handlers are outside the model;
    - what the browser decides during a step (random bytes, whether a tab
      can be reached) is an input of the step, the record [env];
    - the browser calls of a step are logged, in program order, as
      [effect]s.  A call to [maybeSendNext] that the script does not await is
      logged where the call is written. *)

From stdpp Require Import gmap strings list fin_maps pretty.
From Stdlib Require Import ZArith NArith.

Local Open Scope Z_scope.

(** ** JavaScript strings and values *)

Module JS.

(** A string is a list of UTF-16 code units. *)
Definition jsstring : Type := list N.

(** An ASCII literal of the script. *)
Definition lit (s : string) : jsstring :=
  (λ a, Ascii.N_of_ascii a) <$> String.list_ascii_of_string s.

(** WhiteSpace and LineTerminator code points, the set String.prototype.trim
    strips.  All of them lie in the basic plane, so the test on code units
    is exact. *)
Definition isWhiteSpace (c : N) : bool :=
  ((c =? 9) || (c =? 10) || (c =? 11) || (c =? 12) || (c =? 13) || (c =? 32)
   || (c =? 160) || (c =? 5760)
   || ((8192 <=? c) && (c <=? 8202))
   || (c =? 8232) || (c =? 8233) || (c =? 8239) || (c =? 8287)
   || (c =? 12288) || (c =? 65279))%N.

Fixpoint trimStart (s : jsstring) : jsstring :=
  match s with
  | c :: s' => if isWhiteSpace c then trimStart s' else s
  | [] => []
  end.

Definition trimEnd (s : jsstring) : jsstring :=
  reverse (trimStart (reverse s)).

Definition trim (s : jsstring) : jsstring := trimEnd (trimStart s).

(** The values a message field can hold.  Numbers, arrays and plain
    objects are kept abstract: the script observes them only through
    [Boolean(v)] and [String(v)], which [JOther] carries. *)
Inductive jsval : Type :=
| JUndefined
| JNull
| JBool (b : bool)
| JString (s : jsstring)
| JOther (truthy : bool) (str : jsstring).

(** [!!v] *)
Definition ToBoolean (v : jsval) : bool :=
  match v with
  | JUndefined | JNull => false
  | JBool b => b
  | JString s => negb (bool_decide (s = []))
  | JOther t _ => t
  end.

(** [String(v)] *)
Definition ToString (v : jsval) : jsstring :=
  match v with
  | JUndefined => lit "undefined"
  | JNull => lit "null"
  | JBool true => lit "true"
  | JBool false => lit "false"
  | JString s => s
  | JOther _ str => str
  end.

(** [v ?? d] *)
Definition nullish (v d : jsval) : jsval :=
  match v with
  | JUndefined | JNull => d
  | _ => v
  end.

(** [v || d] *)
Definition or (v d : jsval) : jsval :=
  if ToBoolean v then v else d.

(** [a === b] on the values above; two abstract values are never known to
    be identical. *)
Definition strictEq (a b : jsval) : bool :=
  match a, b with
  | JUndefined, JUndefined => true
  | JNull, JNull => true
  | JBool x, JBool y => bool_decide (x = y)
  | JString x, JString y => bool_decide (x = y)
  | _, _ => false
  end.

(** [x.toString(16).padStart(2, '0')] for an element of a Uint8Array. *)
Definition hexDigit (d : N) : N :=
  (if d <? 10 then 48 + d else 87 + d)%N.

Definition toHex2 (x : N) : jsstring :=
  [hexDigit (x / 16 mod 16); hexDigit (x mod 16)]%N.

End JS.

Import JS.

(** ** Data model *)

(** A queue item, [{id, text}]. *)
Record item : Type := Item { id : jsstring; text : jsstring }.

(** The per-tab record of [tabState]. *)
Record ctx : Type := Ctx {
  queue : list item;
  paused : bool;
  pageBusy : bool;
  sending : bool
}.

(** The record [save] writes to [chrome.storage.local]. *)
Record saved : Type := Saved { saved_queue : list item; saved_paused : bool }.

(** The two stores: the [tabState] map of the running script, and the
    extension's durable key-value storage. *)
Record world : Type := World {
  tabState : gmap Z ctx;
  storage : gmap string saved
}.

(** Messages the coordinator sends to a tab. *)
Inductive outmsg : Type :=
| QUEUE_UPDATED (q : list item) (p : bool)
| SEND_TEXT (t : jsstring) (i : jsstring).

(** The objects passed to [sendResponse]. *)
Inductive response : Type :=
| ROk                                     (* {ok: true} *)
| ROkId (i : jsstring)                    (* {ok: true, id} *)
| RError (e : string)                     (* {ok: false, error} *)
| RState (q : list item) (p : bool).      (* {ok: true, queue, paused} *)

(** Browser calls, as they are logged. *)
Inductive effect : Type :=
| StorageSet (key : string) (v : saved)
| TabsSendMessage (tab : Z) (m : outmsg) (delivered : bool)
| SendResponse (r : response)
| ConsoleWarn (e : jsval)
| SetTimeout (tab : Z) (delay : Z).

(** What the environment decides during one trigger: the random source
    behind [crypto.getRandomValues] ([randomValues k] is what it puts in the
    [k]-th element) and whether [chrome.tabs.sendMessage] resolves ([true])
    or throws ([false]). *)
Record env : Type := Env {
  randomValues : nat → N;
  tabsReachable : outmsg → bool
}.

(** An incoming message.  Absent fields are [JUndefined]; [tabId] is the
    optional numeric fallback field. *)
Record message : Type := Message {
  type : string;
  tabId : option Z;
  busy : jsval;
  msg_text : jsval;
  msg_id : jsval;
  error : jsval
}.

#[global] Instance item_eq_dec : EqDecision item.
Proof. solve_decision. Defined.
#[global] Instance jsval_eq_dec : EqDecision jsval.
Proof. solve_decision. Defined.

(** ** The monad of handlers: environment, world, log *)

Definition M (A : Type) : Type := env → world → A * world * list effect.

(** Put a log in front of the log of a result. *)
Definition prepend {A} (l : list effect) (r : A * world * list effect)
  : A * world * list effect :=
  (r.1.1, r.1.2, l ++ r.2).

#[global] Instance M_ret : MRet M := λ A a _ w, (a, w, []).
#[global] Instance M_bind : MBind M := λ A B f m e w,
  match m e w with
  | (a, w1, l1) => prepend l1 (f a e w1)
  end.

Definition result {A} (r : A * world * list effect) : A := r.1.1.
Definition final {A} (r : A * world * list effect) : world := r.1.2.
Definition effects {A} (r : A * world * list effect) : list effect := r.2.

Definition skip : M unit := mret tt.
Definition emit (x : effect) : M unit := λ _ w, (tt, w, [x]).
Definition ask : M env := λ e w, (e, w, []).

(** In-place update of the record of a tab. *)
Definition mutate (tab : Z) (f : ctx → ctx) : M unit := λ _ w,
  (tt, World (alter f tab (tabState w)) (storage w), []).

Definition set_queue (q : list item) (s : ctx) : ctx :=
  Ctx q (paused s) (pageBusy s) (sending s).
Definition set_paused (b : bool) (s : ctx) : ctx :=
  Ctx (queue s) b (pageBusy s) (sending s).
Definition set_pageBusy (b : bool) (s : ctx) : ctx :=
  Ctx (queue s) (paused s) b (sending s).
Definition set_sending (b : bool) (s : ctx) : ctx :=
  Ctx (queue s) (paused s) (pageBusy s) b.

(** ** bg.js *)

(** [const keyFor = (tabId) => `queue:${tabId}`] *)
Definition keyFor (tab : Z) : string := "queue:" +:+ pretty tab.

(** [crypto.getRandomValues(a)] on a Uint8Array: every element is replaced
    by a random byte. *)
Definition getRandomValues (e : env) (a : list N) : list N :=
  (λ k, randomValues e k mod 256)%N <$> seq 0 (length a).

(** [randomId(len = 8)]: two hex digits for each byte of a filled
    Uint8Array of [len] elements. *)
Definition randomId (e : env) (len : nat) : jsstring :=
  let a := replicate len 0%N in
  let a := getRandomValues e a in
  mjoin (toHex2 <$> a).

(** The record [getState] builds when the tab is not in [tabState]. *)
Definition fresh (sv : option saved) : ctx :=
  {| queue := default [] (saved_queue <$> sv);
     paused := default false (saved_paused <$> sv);
     pageBusy := false;
     sending := false |}.

(** [getState]: the record in [tabState], created from storage on first use. *)
Definition getState (tab : Z) : M ctx := λ _ w,
  match tabState w !! tab with
  | Some s => (s, w, [])
  | None =>
      let s := fresh (storage w !! keyFor tab) in
      (s, World (<[tab := s]> (tabState w)) (storage w), [])
  end.

(** [chrome.storage.local.set({[key]: v})] *)
Definition storage_set (key : string) (v : saved) : M unit := λ _ w,
  (tt, World (tabState w) (<[key := v]> (storage w)), [StorageSet key v]).

(** [chrome.tabs.sendMessage(tab, m)]; the result tells whether it resolved. *)
Definition tabs_sendMessage (tab : Z) (m : outmsg) : M bool := λ e w,
  (tabsReachable e m, w, [TabsSendMessage tab m (tabsReachable e m)]).

Definition save (tab : Z) : M unit :=
  s ← getState tab;
  storage_set (keyFor tab) {| saved_queue := queue s; saved_paused := paused s |}.

(** [broadcast]: a failure to reach the tab is swallowed. *)
Definition broadcast (tab : Z) : M unit :=
  s ← getState tab;
  _ ← tabs_sendMessage tab (QUEUE_UPDATED (queue s) (paused s));
  skip.

(** [maybeSendNext]: [sending] is set before the handoff and reset when the
    handoff throws. *)
Definition maybeSendNext (tab : Z) : M unit :=
  s ← getState tab;
  if paused s then skip else
  if sending s then skip else
  if pageBusy s then skip else
  match queue s with
  | [] => skip
  | next :: _ =>
      mutate tab (set_sending true);;
      ok ← tabs_sendMessage tab (SEND_TEXT (text next) (id next));
      if (ok : bool) then skip else mutate tab (set_sending false)
  end.

(** [Array.prototype.findIndex], [-1] when no element satisfies [p]. *)
Fixpoint findIndex {A} (p : A → bool) (l : list A) : Z :=
  match l with
  | [] => -1
  | x :: l' =>
      if p x then 0
      else let i := findIndex p l' in if i =? -1 then -1 else i + 1
  end.

(** [case 'HELLO'] *)
Definition on_HELLO (tab : Z) (msg : message) : M unit :=
  _ ← getState tab;
  broadcast tab;;
  emit (SendResponse ROk).

(** [case 'PAGE_STATE'] *)
Definition on_PAGE_STATE (tab : Z) (msg : message) : M unit :=
  s ← getState tab;
  let prev := pageBusy s in
  let now := ToBoolean (busy msg) in
  mutate tab (set_pageBusy now);;
  if negb (bool_decide (prev = now)) && negb now
  then maybeSendNext tab
  else skip.

(** [case 'QUEUE_ADD'] *)
Definition on_QUEUE_ADD (tab : Z) (msg : message) : M unit :=
  _ ← getState tab;
  e ← ask;
  let i := randomId e 8 in
  mutate tab (λ s,
    set_queue (queue s ++ [Item i (trim (ToString (nullish (msg_text msg) (JString []))))]) s);;
  save tab;;
  broadcast tab;;
  maybeSendNext tab;;
  emit (SendResponse (ROkId i)).

(** [case 'QUEUE_REMOVE'] *)
Definition on_QUEUE_REMOVE (tab : Z) (msg : message) : M unit :=
  _ ← getState tab;
  mutate tab (λ s,
    set_queue (filter (λ it, negb (strictEq (JString (id it)) (msg_id msg))) (queue s)) s);;
  save tab;;
  broadcast tab;;
  emit (SendResponse ROk).

(** [case 'QUEUE_UPDATE'] *)
Definition on_QUEUE_UPDATE (tab : Z) (msg : message) : M unit :=
  s ← getState tab;
  let i := ToString (or (msg_id msg) (JString [])) in
  let t := trim (ToString (or (msg_text msg) (JString []))) in
  let idx := findIndex (λ it, bool_decide (id it = i)) (queue s) in
  if negb (idx =? -1) then
    mutate tab (λ s,
      match queue s !! Z.to_nat idx with
      | Some old => set_queue (<[Z.to_nat idx := Item (id old) t]> (queue s)) s
      | None => s
      end);;
    save tab;;
    broadcast tab;;
    emit (SendResponse ROk)
  else
    emit (SendResponse (RError "not_found")).

(** [case 'QUEUE_CLEAR'] *)
Definition on_QUEUE_CLEAR (tab : Z) (msg : message) : M unit :=
  _ ← getState tab;
  mutate tab (set_queue []);;
  save tab;;
  broadcast tab;;
  emit (SendResponse ROk).

(** [case 'QUEUE_GET'] *)
Definition on_QUEUE_GET (tab : Z) (msg : message) : M unit :=
  s ← getState tab;
  emit (SendResponse (RState (queue s) (paused s))).

(** [case 'PAUSE'] *)
Definition on_PAUSE (tab : Z) (msg : message) : M unit :=
  _ ← getState tab;
  mutate tab (set_paused true);;
  save tab;;
  broadcast tab;;
  emit (SendResponse ROk).

(** [case 'RESUME'] *)
Definition on_RESUME (tab : Z) (msg : message) : M unit :=
  _ ← getState tab;
  mutate tab (set_paused false);;
  save tab;;
  broadcast tab;;
  maybeSendNext tab;;
  emit (SendResponse ROk).

(** [s.queue[0]?.id], [undefined] on an empty queue. *)
Definition headId (q : list item) : jsval :=
  match q with
  | [] => JUndefined
  | it :: _ => JString (id it)
  end.

(** [case 'SUBMITTED'] *)
Definition on_SUBMITTED (tab : Z) (msg : message) : M unit :=
  s ← getState tab;
  if strictEq (headId (queue s)) (msg_id msg) then
    mutate tab (λ s, set_queue (tail (queue s)) s);;
    mutate tab (set_sending false);;
    save tab;;
    broadcast tab
  else
    mutate tab (set_sending false).

(** [case 'ERROR']; the callback of the timer is [maybeSendNext(tabId)], see
    [step]. *)
Definition on_ERROR (tab : Z) (msg : message) : M unit :=
  _ ← getState tab;
  mutate tab (set_sending false);;
  broadcast tab;;
  emit (ConsoleWarn (error msg));;
  emit (SetTimeout tab 400).

(** The [switch (msg.type)] of the listener. *)
Definition handle (tab : Z) (msg : message) : M unit :=
  if String.eqb (type msg) "HELLO" then on_HELLO tab msg
  else if String.eqb (type msg) "PAGE_STATE" then on_PAGE_STATE tab msg
  else if String.eqb (type msg) "QUEUE_ADD" then on_QUEUE_ADD tab msg
  else if String.eqb (type msg) "QUEUE_REMOVE" then on_QUEUE_REMOVE tab msg
  else if String.eqb (type msg) "QUEUE_UPDATE" then on_QUEUE_UPDATE tab msg
  else if String.eqb (type msg) "QUEUE_CLEAR" then on_QUEUE_CLEAR tab msg
  else if String.eqb (type msg) "QUEUE_GET" then on_QUEUE_GET tab msg
  else if String.eqb (type msg) "PAUSE" then on_PAUSE tab msg
  else if String.eqb (type msg) "RESUME" then on_RESUME tab msg
  else if String.eqb (type msg) "SUBMITTED" then on_SUBMITTED tab msg
  else if String.eqb (type msg) "ERROR" then on_ERROR tab msg
  else skip.

(** [sender.tab?.id ?? msg.tabId] *)
Definition resolveTab (sender_tab : option Z) (msg : message) : option Z :=
  match sender_tab with
  | Some t => Some t
  | None => tabId msg
  end.

(** The listener.  A message without a usable tab id is ignored, unless it
    is a 'PING', for which the switch has no case. *)
Definition onMessage (msg : message) (sender_tab : option Z) : M unit :=
  match resolveTab sender_tab msg with
  | Some t =>
      if (t =? 0) && negb (String.eqb (type msg) "PING") then skip
      else handle t msg
  | None => skip
  end.

(** What the coordinator reacts to: a message, or the timer armed by the
    'ERROR' case firing. *)
Inductive trigger : Type :=
| Incoming (msg : message) (sender_tab : option Z)
| TimerFired (tab : Z).

Definition step (t : trigger) : M unit :=
  match t with
  | Incoming msg sender_tab => onMessage msg sender_tab
  | TimerFired tab => maybeSendNext tab
  end.

(** A run: triggers processed one after the other, each with the
    environment's choices for it. *)
Fixpoint run (ts : list (trigger * env)) (w : world) : world * list effect :=
  match ts with
  | [] => (w, [])
  | (t, e) :: ts' =>
      let r := step t e w in
      let r' := run ts' (final r) in
      (r'.1, effects r ++ r'.2)
  end.

(** The script starting: an empty [tabState] over whatever is stored. *)
Definition restart (w : world) : world := World ∅ (storage w).

(** The record of a tab as the script sees it: the one in [tabState], or
    the one [getState] would build from storage. *)
Definition current (w : world) (tab : Z) : ctx :=
  match tabState w !! tab with
  | Some s => s
  | None => fresh (storage w !! keyFor tab)
  end.

(** ** Summaries used by the proofs *)

(** The item [maybeSendNext] picks: the head of the queue, when none of the
    four guards returns early. *)
Definition dispatched (s : ctx) : option item :=
  if paused s then None else
  if sending s then None else
  if pageBusy s then None else
  head (queue s).

(** The record of the tab after [maybeSendNext]: [sending] is left set when
    the handoff resolved, and reset when it threw. *)
Definition afterSend (e : env) (s : ctx) : ctx :=
  match dispatched s with
  | Some next => set_sending (tabsReachable e (SEND_TEXT (text next) (id next))) s
  | None => s
  end.

(** The log of [maybeSendNext]. *)
Definition sendLog (tab : Z) (e : env) (s : ctx) : list effect :=
  match dispatched s with
  | Some next =>
      let m := SEND_TEXT (text next) (id next) in
      [TabsSendMessage tab m (tabsReachable e m)]
  | None => []
  end.

(** [tabState] holding [s] for [tab]: the shape of the world once
    [getState] has run. *)
Definition holding (tab : Z) (s : ctx) (w : world) : world :=
  World (<[tab := s]> (tabState w)) (storage w).

(** Storage after a write. *)
Definition stored (key : string) (v : saved) (w : world) : world :=
  World (tabState w) (<[key := v]> (storage w)).

(** What [save] writes for a record. *)
Definition durable (s : ctx) : saved :=
  {| saved_queue := queue s; saved_paused := paused s |}.

(** The log of [save] followed by [broadcast]. *)
Definition publish (tab : Z) (e : env) (s : ctx) : list effect :=
  [StorageSet (keyFor tab) (durable s);
   TabsSendMessage tab (QUEUE_UPDATED (queue s) (paused s))
     (tabsReachable e (QUEUE_UPDATED (queue s) (paused s)))].

(** Is a log free of handoffs, and of timers? *)
Definition isSendText (x : effect) : bool :=
  match x with
  | TabsSendMessage _ (SEND_TEXT _ _) _ => true
  | _ => false
  end.

Definition isSetTimeout (x : effect) : bool :=
  match x with
  | SetTimeout _ _ => true
  | _ => false
  end.

Definition isResponse (x : effect) : bool :=
  match x with
  | SendResponse _ => true
  | _ => false
  end.

(** The tab a trigger is about, if any. *)
Definition target (t : trigger) : option Z :=
  match t with
  | Incoming msg sender_tab => resolveTab sender_tab msg
  | TimerFired tab => Some tab
  end.

(** The type of the message of a trigger; a timer has none. *)
Definition kind (t : trigger) : string :=
  match t with
  | Incoming msg _ => type msg
  | TimerFired _ => EmptyString
  end.

(** The item a trigger enqueues for [tab]: the one 'QUEUE_ADD' pushes. *)
Definition enqueues (tab : Z) (te : trigger * env) : list item :=
  match te.1 with
  | Incoming msg sender_tab =>
      if bool_decide (resolveTab sender_tab msg = Some tab ∧ tab ≠ 0 ∧
                      type msg = "QUEUE_ADD")
      then [Item (randomId te.2 8)
                 (trim (ToString (nullish (msg_text msg) (JString []))))]
      else []
  | TimerFired _ => []
  end.

Definition enqueued (tab : Z) (ts : list (trigger * env)) : list item :=
  ts ≫= enqueues tab.

(** Triggers that take items out of the queue. *)
Definition takesOut (t : trigger) : bool :=
  bool_decide (kind t = "QUEUE_REMOVE" ∨ kind t = "QUEUE_CLEAR" ∨
               kind t = "SUBMITTED").

(** The invariant of section 8 of the specification: an item in flight is
    an item of the queue. *)
Definition inFlightQueued (s : ctx) : Prop :=
  sending s = true → queue s ≠ [].

(** The triggers that empty the queue of [tab] under an item in flight: a
    'QUEUE_CLEAR', or a 'QUEUE_REMOVE' whose [id] is the id of every queued
    item, that reaches the switch for [tab] while [sending] is set. *)
Definition cancelsInFlight (t : trigger) (tab : Z) (s : ctx) : Prop :=
  match t with
  | Incoming msg sender_tab =>
      resolveTab sender_tab msg = Some tab ∧ tab ≠ 0 ∧ sending s = true ∧
      (type msg = "QUEUE_CLEAR" ∨
       type msg = "QUEUE_REMOVE" ∧
       Forall (λ it, strictEq (JString (id it)) (msg_id msg) = true) (queue s))
  | TimerFired _ => False
  end.

(** The worlds the script can be in: those a run from an empty world and
    empty storage ends in. *)
Definition reachable (w : world) : Prop :=
  ∃ ts, w = (run ts (World ∅ ∅)).1.

(** The bytes drawn for the identifier of an enqueued item, and those
    drawn for the tab over a run. *)
Definition draw (e : env) : list N := getRandomValues e (replicate 8 0%N).

Definition draws (tab : Z) (ts : list (trigger * env)) : list (list N) :=
  ts ≫= λ te, if bool_decide (enqueues tab te = []) then [] else [draw te.2].

(** ** Sample inputs *)

(** A message of a given type with a [text] and an [id] field. *)
Definition msgOf (ty : string) (txt i : jsval) : message :=
  Message ty None JUndefined txt i JUndefined.

(** An environment in which every tab is reachable. *)
Definition calm : env := Env (λ k, N.of_nat k + 250)%N (λ _, true).

(** An environment in which no tab is. *)
Definition gone : env := Env (λ k, 16 * N.of_nat k)%N (λ _, false).

(** A second draw of random bytes. *)
Definition later : env := Env (λ k, N.of_nat k + 16)%N (λ _, true).

Definition blank : world := World ∅ ∅.

(** Tab 7 asks for "a" and then " b " to be queued. *)
Definition enqueue (txt : string) : trigger :=
  Incoming (msgOf "QUEUE_ADD" (JString (lit txt)) JUndefined) (Some 7).

Definition twoQueued : world :=
  (run [(enqueue "a", calm); (enqueue " b ", later)] blank).1.

(** The identifiers the two draws give. *)
Definition idA : jsstring := lit "fafbfcfdfeff0001".
Definition idB : jsstring := lit "1011121314151617".

(** ** Further summaries *)

(** A lower-case hexadecimal digit. *)
Definition isHexDigit (c : N) : bool :=
  ((48 <=? c) && (c <=? 57) || (97 <=? c) && (c <=? 102))%N.

(** An effect is about a tab when it writes the key of the tab, sends to
    the tab or arms a timer for it. *)
Definition touches (tab : Z) (x : effect) : Prop :=
  match x with
  | StorageSet k _ => k = keyFor tab
  | TabsSendMessage t _ _ => t = tab
  | SetTimeout t _ => t = tab
  | SendResponse _ | ConsoleWarn _ => False
  end.

(** What an effect logged for [tab] says, given the record [s'] the step
    leaves for the tab. *)
Definition describes (tab : Z) (s' : ctx) (x : effect) : Prop :=
  match x with
  | StorageSet k v => k = keyFor tab ∧ v = durable s'
  | TabsSendMessage t (QUEUE_UPDATED q p) _ =>
      t = tab ∧ q = queue s' ∧ p = paused s'
  | TabsSendMessage t (SEND_TEXT txt i) ok =>
      t = tab ∧ head (queue s') = Some (Item i txt) ∧ sending s' = ok ∧
      paused s' = false ∧ pageBusy s' = false
  | SetTimeout t d => t = tab ∧ d = 400
  | SendResponse _ | ConsoleWarn _ => True
  end.

(** Storage agrees with the record of a tab on the two durable fields. *)
Definition synced (w : world) (tab : Z) : Prop :=
  durable (fresh (storage w !! keyFor tab)) = durable (current w tab).

(** An item as the coordinator makes them: sixteen hex digits of id, and a
    text that [trim] leaves as it is. *)
Definition wellFormed (it : item) : Prop :=
  length (id it) = 16%nat ∧
  Forall (λ c, isHexDigit c = true) (id it) ∧
  trim (text it) = text it.

(** The message types the switch has a case for, and those a controller
    waits on for an answer. *)
Definition knownTypes : list string :=
  ["HELLO"; "PAGE_STATE"; "QUEUE_ADD"; "QUEUE_REMOVE"; "QUEUE_UPDATE";
   "QUEUE_CLEAR"; "QUEUE_GET"; "PAUSE"; "RESUME"; "SUBMITTED"; "ERROR"].

Definition answeredTypes : list string :=
  ["HELLO"; "QUEUE_ADD"; "QUEUE_REMOVE"; "QUEUE_UPDATE"; "QUEUE_CLEAR";
   "QUEUE_GET"; "PAUSE"; "RESUME"].

(** The triggers after which the script calls [maybeSendNext]: 'QUEUE_ADD',
    'RESUME', a 'PAGE_STATE' arriving while [pageBusy] is set, and the
    timer. *)
Definition evaluates (t : trigger) (s : ctx) : Prop :=
  match t with
  | TimerFired _ => True
  | Incoming msg _ =>
      type msg = "QUEUE_ADD" ∨ type msg = "RESUME" ∨
      (type msg = "PAGE_STATE" ∧ pageBusy s = true)
  end.

(** ** The content script: utils.ts, export.ts *)

(** [s.replaceAll(c, r)] for a pattern [c] of one code unit and a
    replacement [r] without '$'. *)
Definition replaceAll (c : N) (r : jsstring) (s : jsstring) : jsstring :=
  s ≫= λ x, if (x =? c)%N then r else [x].

(** [escapeHtml]: five passes, '&' first. *)
Definition escapeHtml (s : jsval) : jsstring :=
  replaceAll 39 (lit "&#39;")
    (replaceAll 34 (lit "&quot;")
       (replaceAll 62 (lit "&gt;")
          (replaceAll 60 (lit "&lt;")
             (replaceAll 38 (lit "&amp;") (ToString s))))).

(** The entity of one code unit: what a single pass over the input would
    write for it. *)
Definition entity (c : N) : jsstring :=
  if (c =? 38)%N then lit "&amp;"
  else if (c =? 60)%N then lit "&lt;"
  else if (c =? 62)%N then lit "&gt;"
  else if (c =? 34)%N then lit "&quot;"
  else if (c =? 39)%N then lit "&#39;"
  else [c].

(** The code units that open a tag or close an attribute value. *)
Definition isMarkup (c : N) : bool :=
  ((c =? 60) || (c =? 62) || (c =? 34) || (c =? 39))%N.

(** [/[a-z0-9\-_]/i]: with the [i] flag and no [u] flag a code unit above
    127 is never folded to an ASCII letter, so the class is the ASCII
    letters, the digits, '-' and '_'. *)
Definition isNameChar (c : N) : bool :=
  ((48 <=? c) && (c <=? 57) || (65 <=? c) && (c <=? 90)
   || (97 <=? c) && (c <=? 122) || (c =? 45) || (c =? 95))%N.

(** [s.replace(/\s+/g, '-')]: every maximal run of white space becomes one
    '-'.  [inRun] tells that the code unit before was white space. *)
Fixpoint dashRuns (inRun : bool) (s : jsstring) : jsstring :=
  match s with
  | [] => []
  | c :: s' =>
      if isWhiteSpace c
      then (if inRun then dashRuns true s' else 45%N :: dashRuns true s')
      else c :: dashRuns false s'
  end.

(** The file name [downloadMarkdownFile] gives the download. *)
Definition downloadName (name : jsstring) : jsstring :=
  let name := if bool_decide (name = []) then lit "conversation" else name in
  let kept := filter (λ c, isNameChar c || isWhiteSpace c = true) name in
  let base := take 80 (dashRuns false (trim kept)) in
  let base := if bool_decide (base = []) then lit "conversation" else base in
  base ++ lit ".md".

(** [downloadMarkdownFile(md, name)]: nothing for an empty document,
    otherwise one download, of [md], under [downloadName name]. *)
Definition downloadMarkdownFile (md name : jsstring) : option (jsstring * jsstring) :=
  if bool_decide (md = []) then None else Some (downloadName name, md).

(** ** The content script: state-watcher.ts, index.ts, hotkeys.ts *)

(** [safeSendMessage(msg)]: the message goes to the background script
    unless the extension context is gone ([valid] false), in which case
    nothing is sent and nothing is thrown. *)
Definition safeSendMessage (valid : bool) (msg : message) : list message :=
  if valid then [msg] else [].

(** The body of the debounced [reportBusy]: [stop] tells whether
    [getStopButton()] found something, [streaming] whether the page has a
    [data-is-streaming] element, [claude] whether SITE is 'claude'.  The
    state is [lastBusy], [None] for [undefined]. *)
Definition reportBusy (valid claude stop streaming : bool) (lastBusy : option bool)
  : option bool * list message :=
  let streamingEl := if claude then streaming else false in
  let busy := stop || streamingEl in
  if bool_decide (Some busy ≠ lastBusy)
  then (Some busy,
        safeSendMessage valid
          (Message "PAGE_STATE" None (JBool busy) JUndefined JUndefined JUndefined))
  else (lastBusy, []).

(** One observation of the page, and the reports a sequence of them
    produces. *)
Record observation : Type := Observation {
  obs_valid : bool; obs_claude : bool; obs_stop : bool; obs_streaming : bool
}.

Definition observedBusy (o : observation) : bool :=
  obs_stop o || (if obs_claude o then obs_streaming o else false).

Fixpoint reports (os : list observation) (lastBusy : option bool)
  : option bool * list message :=
  match os with
  | [] => (lastBusy, [])
  | o :: os' =>
      let r := reportBusy (obs_valid o) (obs_claude o) (obs_stop o) (obs_streaming o)
                 lastBusy in
      let r' := reports os' r.1 in
      (r'.1, r.2 ++ r'.2)
  end.

(** What [typeAndSend] threw: [err?.message] and [String(err)]. *)
Record thrown : Type := Thrown { err_message : jsval; err_string : jsstring }.

(** [String(err?.message || err)] *)
Definition errorText (t : thrown) : jsstring :=
  if ToBoolean (err_message t) then ToString (err_message t) else err_string t.

(** [localQueueEmpty] and [localPaused] of hotkeys.ts. *)
Record local : Type := Local { localQueueEmpty : bool; localPaused : bool }.

(** [updateLocalQueueState(queueLength, paused)] *)
Definition updateLocalQueueState (queueLength : nat) (p : bool) : local :=
  {| localQueueEmpty := bool_decide (queueLength = 0%nat); localPaused := p |}.

(** The listener of the content script.  [typeAndSend] is the outcome of
    typing and submitting a text on the page: [None] when it resolved.  The
    result is the new local state and the messages sent back; the redrawing
    of the popover is left out. *)
Definition contentOnMessage (valid : bool) (typeAndSend : jsstring → option thrown)
    (l : local) (m : outmsg) : local * list message :=
  match m with
  | QUEUE_UPDATED q p => (updateLocalQueueState (length q) p, [])
  | SEND_TEXT t i =>
      (l,
       match typeAndSend t with
       | None =>
           safeSendMessage valid
             (Message "SUBMITTED" None JUndefined JUndefined (JString i) JUndefined)
       | Some err =>
           safeSendMessage valid
             (Message "ERROR" None JUndefined JUndefined JUndefined
                (JString (errorText err)))
       end)
  end.

(** A keydown event, and what the handler of hotkeys.ts does with it. *)
Record keyEvent : Type := KeyEvent {
  altKey : bool; metaKey : bool; ctrlKey : bool; shiftKey : bool; key : string
}.

Inductive action : Type :=
| PreventDefault
| StopPropagation
| Send (msg : message)
| ClearEditor.

(** The keydown handler.  [focused] tells whether the editor exists and
    holds the focus, [text] is [getEditorPlainText()], [stop] whether
    [getStopButton()] found something. *)
Definition onKeydown (valid focused stop : bool) (text : jsstring) (l : local)
    (ev : keyEvent) : list action :=
  let add := Message "QUEUE_ADD" None JUndefined (JString text) JUndefined JUndefined in
  if negb focused then []
  else if altKey ev && String.eqb (key ev) "Enter" then
    [PreventDefault; StopPropagation] ++
    (if negb (bool_decide (text = []))
     then (Send <$> safeSendMessage valid add) ++ [ClearEditor]
     else [])
  else if negb (altKey ev) && negb (metaKey ev) && negb (ctrlKey ev)
          && String.eqb (key ev) "Enter" && negb (shiftKey ev) then
    if bool_decide (text = []) then []
    else
      let pageIdle := negb stop in
      if localQueueEmpty l && negb (localPaused l) && pageIdle then []
      else [PreventDefault; StopPropagation] ++
           (Send <$> safeSendMessage valid add) ++ [ClearEditor]
  else [].

(** No two neighbours of a list of reports are equal, the first differing
    from [prev]. *)
Fixpoint alternating (prev : option bool) (l : list bool) : Prop :=
  match l with
  | [] => True
  | b :: l' => Some b ≠ prev ∧ alternating (Some b) l'
  end.

(** The messages of a tab as triggers, all under one environment. *)
Definition deliver (tab : Z) (e : env) (ms : list message) : list (trigger * env) :=
  (λ m, (Incoming m (Some tab), e)) <$> ms.

(** ** The content script: editor.ts, queue-ui.ts *)

(** The composer as [getEditorPlainText] meets it: missing, an element with
    a [value] (a textarea, [value] being [ed.value || '']), or a rich editor
    with, for each of its [<p>] elements, [p.innerText || p.textContent ||
    ''], and its own [ed.innerText || ed.textContent || '']. *)
Inductive editor : Type :=
| NoEditor
| WithValue (value : jsstring)
| Rich (paragraphs : list jsstring) (innerText : jsstring).

(** [s.replace(/^\n+/, '')] and [s.replace(/\n+$/, '')] *)
Fixpoint dropNewlines (s : jsstring) : jsstring :=
  match s with
  | c :: s' => if (c =? 10)%N then dropNewlines s' else s
  | [] => []
  end.

Definition dropNewlinesEnd (s : jsstring) : jsstring :=
  reverse (dropNewlines (reverse s)).

(** [lines.join('\n')] *)
Fixpoint joinLines (lines : list jsstring) : jsstring :=
  match lines with
  | [] => []
  | [l] => l
  | l :: ls => l ++ 10%N :: joinLines ls
  end.

(** [getEditorPlainText] *)
Definition getEditorPlainText (ed : editor) : jsstring :=
  match ed with
  | NoEditor => []
  | WithValue value => trim value
  | Rich paragraphs innerText =>
      if bool_decide (paragraphs = []) then trim innerText
      else
        let lines := dropNewlinesEnd <$> paragraphs in
        dropNewlinesEnd (dropNewlines (joinLines lines))
  end.

(** [commitInlineEdit(el)], as far as the coordinator sees it: [editable] is
    [el.isContentEditable], [i] is [el.dataset.id], [prev] is
    [el.dataset.prev || ''] and [content] is [el.textContent || '']. *)
Definition commitInlineEdit (valid editable : bool) (i : option jsstring)
    (prev content : jsstring) : list message :=
  if negb editable then []
  else
    let text := trim content in
    match i with
    | None => []
    | Some i =>
        if bool_decide (text = prev) || bool_decide (i = []) then []
        else safeSendMessage valid
               (Message "QUEUE_UPDATE" None JUndefined (JString text) (JString i)
                  JUndefined)
    end.

(** * Running the monad *)

Section Exec.

Context (tab : Z) (e : env).

Lemma bind_eq {A B} (m : M A) (f : A → M B) w a w1 l1 :
  m e w = (a, w1, l1) → (m ≫= f) e w = prepend l1 (f a e w1).
Proof. unfold mbind, M_bind. intros ->. reflexivity. Qed.

Lemma prepend_nil {A} (r : A * world * list effect) : prepend [] r = r.
Proof. by destruct r as [[??]?]. Qed.

Lemma prepend_pair {A} l (a : A) w l' : prepend l (a, w, l') = (a, w, l ++ l').
Proof. reflexivity. Qed.

Lemma getState_run w :
  getState tab e w = (current w tab, holding tab (current w tab) w, []).
Proof.
  unfold getState, current, holding.
  destruct (tabState w !! tab) as [s|] eqn:Hs; [|done].
  rewrite insert_id by done. by destruct w.
Qed.

Lemma getState_hit s w :
  getState tab e (holding tab s w) = (s, holding tab s w, []).
Proof. unfold getState, holding; cbn. by rewrite lookup_insert_eq. Qed.

Lemma mutate_hit f s w :
  mutate tab f e (holding tab s w) = (tt, holding tab (f s) w, []).
Proof. unfold mutate, holding; cbn. by rewrite alter_insert_eq. Qed.

Lemma save_hit s w :
  save tab e (holding tab s w) =
  (tt, holding tab s (stored (keyFor tab) (durable s) w),
   [StorageSet (keyFor tab) (durable s)]).
Proof. unfold save. erewrite bind_eq by apply getState_hit. reflexivity. Qed.

Lemma broadcast_hit s w :
  broadcast tab e (holding tab s w) =
  (tt, holding tab s w,
   [TabsSendMessage tab (QUEUE_UPDATED (queue s) (paused s))
      (tabsReachable e (QUEUE_UPDATED (queue s) (paused s)))]).
Proof. unfold broadcast. erewrite bind_eq by apply getState_hit. reflexivity. Qed.

Lemma set_sending_undo s : sending s = false → set_sending false (set_sending true s) = s.
Proof. destruct s; cbn; by intros ->. Qed.

Lemma maybeSendNext_hit s w :
  maybeSendNext tab e (holding tab s w) =
  (tt, holding tab (afterSend e s) w, sendLog tab e s).
Proof.
  unfold maybeSendNext, afterSend, sendLog, dispatched.
  erewrite bind_eq by apply getState_hit. rewrite prepend_nil.
  destruct (paused s); [done|].
  destruct (sending s) eqn:Hsend; [done|].
  destruct (pageBusy s); [done|].
  destruct (queue s) as [|next q]; [done|]. cbn [head].
  erewrite bind_eq by apply mutate_hit. rewrite prepend_nil.
  unfold mbind, M_bind, tabs_sendMessage.
  destruct (tabsReachable e _) eqn:Hok; cbn.
  - reflexivity.
  - rewrite mutate_hit, (set_sending_undo s Hsend). cbn.
    by destruct s; cbn in *; subst.
Qed.

Lemma getState_bind_run {B} (k : ctx → M B) w :
  (getState tab ≫= k) e w = (getState tab ≫= k) e (holding tab (current w tab) w).
Proof.
  erewrite bind_eq by apply getState_run.
  erewrite (bind_eq _ _ (holding _ _ _)) by apply getState_hit. done.
Qed.

Lemma maybeSendNext_run w :
  maybeSendNext tab e w =
  (tt, holding tab (afterSend e (current w tab)) w, sendLog tab e (current w tab)).
Proof.
  rewrite <- maybeSendNext_hit. unfold maybeSendNext. apply getState_bind_run.
Qed.

End Exec.

(** Symbolic execution of a handler, one call at a time. *)
Ltac exec_call :=
  first
    [ erewrite bind_eq by
        first [ apply getState_hit | apply mutate_hit | apply save_hit
              | apply broadcast_hit | apply maybeSendNext_hit
              | apply getState_run ]
    | rewrite getState_hit | rewrite mutate_hit | rewrite save_hit
    | rewrite broadcast_hit | rewrite maybeSendNext_hit
    | erewrite bind_eq by
        (unfold emit, ask, skip, mret, M_ret; reflexivity) ].

Ltac exec := repeat (exec_call; rewrite ?prepend_nil, ?prepend_pair).

Section Handlers.

Context (tab : Z) (msg : message) (e : env) (w : world).

Let s := current w tab.

Lemma on_HELLO_run :
  on_HELLO tab msg e w =
  (tt, holding tab s w,
   [TabsSendMessage tab (QUEUE_UPDATED (queue s) (paused s))
      (tabsReachable e (QUEUE_UPDATED (queue s) (paused s)));
    SendResponse ROk]).
Proof. unfold on_HELLO. exec. reflexivity. Qed.

Lemma on_PAGE_STATE_run :
  let now := ToBoolean (busy msg) in
  let s1 := set_pageBusy now s in
  on_PAGE_STATE tab msg e w =
  if negb (bool_decide (pageBusy s = now)) && negb now
  then (tt, holding tab (afterSend e s1) w, sendLog tab e s1)
  else (tt, holding tab s1 w, []).
Proof.
  intros now s1. unfold on_PAGE_STATE. exec. fold s now s1.
  destruct (negb (bool_decide (pageBusy s = now)) && negb now).
  - apply maybeSendNext_hit.
  - reflexivity.
Qed.

Lemma on_QUEUE_ADD_run :
  let i := randomId e 8 in
  let it := Item i (trim (ToString (nullish (msg_text msg) (JString [])))) in
  let s1 := set_queue (queue s ++ [it]) s in
  on_QUEUE_ADD tab msg e w =
  (tt, holding tab (afterSend e s1) (stored (keyFor tab) (durable s1) w),
   publish tab e s1 ++ sendLog tab e s1 ++ [SendResponse (ROkId i)]).
Proof. intros i it s1. unfold on_QUEUE_ADD. exec. reflexivity. Qed.

Lemma on_QUEUE_REMOVE_run :
  let s1 :=
    set_queue
      (filter (λ it, negb (strictEq (JString (id it)) (msg_id msg))) (queue s)) s in
  on_QUEUE_REMOVE tab msg e w =
  (tt, holding tab s1 (stored (keyFor tab) (durable s1) w),
   publish tab e s1 ++ [SendResponse ROk]).
Proof. intros s1. unfold on_QUEUE_REMOVE. exec. reflexivity. Qed.

Lemma on_QUEUE_UPDATE_run :
  let i := ToString (or (msg_id msg) (JString [])) in
  let t := trim (ToString (or (msg_text msg) (JString []))) in
  let idx := findIndex (λ it, bool_decide (id it = i)) (queue s) in
  let s1 :=
    match queue s !! Z.to_nat idx with
    | Some old => set_queue (<[Z.to_nat idx := Item (id old) t]> (queue s)) s
    | None => s
    end in
  on_QUEUE_UPDATE tab msg e w =
  if negb (idx =? -1)
  then (tt, holding tab s1 (stored (keyFor tab) (durable s1) w),
        publish tab e s1 ++ [SendResponse ROk])
  else (tt, holding tab s w, [SendResponse (RError "not_found")]).
Proof.
  intros i t idx s1. unfold on_QUEUE_UPDATE. exec. fold s i t idx.
  destruct (negb (idx =? -1)).
  - exec. reflexivity.
  - reflexivity.
Qed.

Lemma on_QUEUE_CLEAR_run :
  let s1 := set_queue [] s in
  on_QUEUE_CLEAR tab msg e w =
  (tt, holding tab s1 (stored (keyFor tab) (durable s1) w),
   publish tab e s1 ++ [SendResponse ROk]).
Proof. intros s1. unfold on_QUEUE_CLEAR. exec. reflexivity. Qed.

Lemma on_QUEUE_GET_run :
  on_QUEUE_GET tab msg e w =
  (tt, holding tab s w, [SendResponse (RState (queue s) (paused s))]).
Proof. unfold on_QUEUE_GET. exec. reflexivity. Qed.

Lemma on_PAUSE_run :
  let s1 := set_paused true s in
  on_PAUSE tab msg e w =
  (tt, holding tab s1 (stored (keyFor tab) (durable s1) w),
   publish tab e s1 ++ [SendResponse ROk]).
Proof. intros s1. unfold on_PAUSE. exec. reflexivity. Qed.

Lemma on_RESUME_run :
  let s1 := set_paused false s in
  on_RESUME tab msg e w =
  (tt, holding tab (afterSend e s1) (stored (keyFor tab) (durable s1) w),
   publish tab e s1 ++ sendLog tab e s1 ++ [SendResponse ROk]).
Proof. intros s1. unfold on_RESUME. exec. reflexivity. Qed.

Lemma on_SUBMITTED_run :
  let s1 := set_sending false (set_queue (tail (queue s)) s) in
  on_SUBMITTED tab msg e w =
  if strictEq (headId (queue s)) (msg_id msg)
  then (tt, holding tab s1 (stored (keyFor tab) (durable s1) w), publish tab e s1)
  else (tt, holding tab (set_sending false s) w, []).
Proof.
  intros s1. unfold on_SUBMITTED. exec. fold s.
  destruct (strictEq (headId (queue s)) (msg_id msg)).
  - exec. reflexivity.
  - exec. reflexivity.
Qed.

Lemma on_ERROR_run :
  let s1 := set_sending false s in
  on_ERROR tab msg e w =
  (tt, holding tab s1 w,
   [TabsSendMessage tab (QUEUE_UPDATED (queue s1) (paused s1))
      (tabsReachable e (QUEUE_UPDATED (queue s1) (paused s1)));
    ConsoleWarn (error msg);
    SetTimeout tab 400]).
Proof. intros s1. unfold on_ERROR. exec. reflexivity. Qed.

End Handlers.

(** * Frame and routing lemmas *)

Lemma keyFor_inj a b : keyFor a = keyFor b → a = b.
Proof.
  unfold keyFor. intros H.
  apply (inj (String.app "queue:")) in H. by apply (inj pretty) in H.
Qed.

Lemma current_holding_eq tab s w : current (holding tab s w) tab = s.
Proof. unfold current, holding; cbn. by rewrite lookup_insert_eq. Qed.

Lemma current_holding_ne tab tab' s w :
  tab' ≠ tab → current (holding tab s w) tab' = current w tab'.
Proof. intros ?. unfold current, holding; cbn. by rewrite lookup_insert_ne. Qed.

Lemma current_stored_ne tab tab' v w :
  tab' ≠ tab → current (stored (keyFor tab) v w) tab' = current w tab'.
Proof.
  intros ?. unfold current, stored; cbn.
  rewrite lookup_insert_ne; [done|]. intros ?%keyFor_inj. congruence.
Qed.

Lemma onMessage_routed msg sender tab :
  resolveTab sender msg = Some tab → tab ≠ 0 →
  onMessage msg sender = handle tab msg.
Proof.
  intros Ht Hz. unfold onMessage. rewrite Ht.
  destruct (Z.eqb_spec tab 0); [done|]. reflexivity.
Qed.

Lemma strictEq_string a v : strictEq (JString a) v = true ↔ v = JString a.
Proof.
  destruct v; cbn; try (split; [done|congruence]).
  rewrite bool_decide_eq_true. split; congruence.
Qed.

Lemma dispatched_Some s next :
  dispatched s = Some next ↔
  paused s = false ∧ sending s = false ∧ pageBusy s = false ∧
  ∃ rest, queue s = next :: rest.
Proof.
  unfold dispatched.
  destruct (paused s), (sending s), (pageBusy s), (queue s) as [|x q]; cbn;
    split; try done; try (intros (?&?&?&?&?); done).
  - intros [= ->]. eauto.
  - intros (_&_&_&?&[= ->]). done.
Qed.

Lemma dispatched_None s :
  dispatched s = None ↔
  paused s = true ∨ sending s = true ∨ pageBusy s = true ∨ queue s = [].
Proof.
  unfold dispatched.
  destruct (paused s), (sending s), (pageBusy s), (queue s) as [|x q]; cbn;
    split; try done; eauto; intros [?|[?|[?|?]]]; done.
Qed.

Lemma queue_afterSend e s : queue (afterSend e s) = queue s.
Proof. unfold afterSend. by destruct (dispatched s). Qed.

Lemma paused_afterSend e s : paused (afterSend e s) = paused s.
Proof. unfold afterSend. by destruct (dispatched s). Qed.

Lemma pageBusy_afterSend e s : pageBusy (afterSend e s) = pageBusy s.
Proof. unfold afterSend. by destruct (dispatched s). Qed.

Lemma sendLog_no_timer tab e s x : x ∈ sendLog tab e s → isSetTimeout x = false.
Proof.
  unfold sendLog. destruct (dispatched s); cbn.
  - by intros ->%list_elem_of_singleton.
  - by intros ?%not_elem_of_nil.
Qed.

(** * The dispatch attempt *)

(** [maybeSendNext], guard by guard. *)
Lemma maybeSendNext_spec (tab : Z) (e : env) (w : world) :
  let s := current w tab in
  let r := maybeSendNext tab e w in
  let s' := current (final r) tab in
  (∀ t m ok, TabsSendMessage t m ok ∈ effects r →
     paused s = false ∧ pageBusy s = false ∧ sending s = false ∧ t = tab ∧
     ∃ next rest, queue s = next :: rest ∧ m = SEND_TEXT (text next) (id next)) ∧
  (∀ next rest,
     queue s = next :: rest → paused s = false → pageBusy s = false →
     sending s = false →
     let m := SEND_TEXT (text next) (id next) in
     effects r = [TabsSendMessage tab m (tabsReachable e m)] ∧
     queue s' = next :: rest ∧
     (tabsReachable e m = true → sending s' = true)) ∧
  (sending s = true → effects r = [] ∧ s' = s).
Proof.
  intros s r s'. subst r s'. rewrite maybeSendNext_run. fold s.
  unfold final, effects; cbn [fst snd]. rewrite current_holding_eq.
  split; [|split].
  - intros t m ok Hin. unfold sendLog in Hin.
    destruct (dispatched s) as [next|] eqn:Hd; [|by apply not_elem_of_nil in Hin].
    apply list_elem_of_singleton in Hin. injection Hin as -> -> _.
    apply dispatched_Some in Hd as (?&?&?&rest&Hq). eauto 10.
  - intros next rest Hq Hp Hb Hs. cbv zeta.
    assert (Hd : dispatched s = Some next) by (apply dispatched_Some; eauto).
    unfold sendLog, afterSend. rewrite Hd. cbn. repeat split; [done|].
    by intros ->.
  - intros Hs.
    assert (Hd : dispatched s = None) by (apply dispatched_None; eauto).
    unfold sendLog, afterSend. by rewrite Hd.
Qed.

(** * Outcomes of a dispatch *)

Lemma handle_SUBMITTED tab msg :
  type msg = "SUBMITTED" → handle tab msg = on_SUBMITTED tab msg.
Proof. unfold handle. by intros ->. Qed.

Lemma handle_ERROR tab msg :
  type msg = "ERROR" → handle tab msg = on_ERROR tab msg.
Proof. unfold handle. by intros ->. Qed.

Lemma publish_quiet tab e s x :
  x ∈ publish tab e s → isSendText x = false ∧ isSetTimeout x = false.
Proof.
  unfold publish. rewrite !elem_of_cons.
  intros [->|[->|?%not_elem_of_nil]]; done.
Qed.

(** C2.  'SUBMITTED' for the id of the head item removes exactly the head,
    clears [sending], saves and broadcasts; for any other id it clears
    [sending] and leaves the queue (and storage) as they were, with an empty
    log; on an empty queue nothing is removed.  In no case does the log hold
    a handoff or a timer: eligibility is not evaluated again. *)
Theorem submitted_reconciles_head
    (msg : message) (sender : option Z) (tab : Z) (e : env) (w : world) :
  type msg = "SUBMITTED" → resolveTab sender msg = Some tab → tab ≠ 0 →
  let s := current w tab in
  let r := onMessage msg sender e w in
  let s' := current (final r) tab in
  sending s' = false ∧ paused s' = paused s ∧ pageBusy s' = pageBusy s ∧
  (∀ x, x ∈ effects r → isSendText x = false ∧ isSetTimeout x = false) ∧
  match queue s with
  | hd :: rest =>
      if decide (msg_id msg = JString (id hd))
      then queue s' = rest ∧ effects r = publish tab e s' ∧
           storage (final r) !! keyFor tab = Some (durable s')
      else queue s' = hd :: rest ∧ effects r = [] ∧ storage (final r) = storage w
  | [] => queue s' = []
  end.
Proof.
  intros Hty Htab Hnz s r s'. subst r s'.
  rewrite (onMessage_routed _ _ _ Htab Hnz), (handle_SUBMITTED _ _ Hty).
  rewrite on_SUBMITTED_run. fold s.
  destruct (strictEq (headId (queue s)) (msg_id msg)) eqn:Heq;
    unfold final, effects; cbn [fst snd]; rewrite current_holding_eq; cbn.
  - split_and!; [done..|apply publish_quiet|].
    destruct (queue s) as [|hd rest] eqn:Hq; [done|]. cbn [headId] in Heq.
    apply strictEq_string in Heq. rewrite decide_True by done.
    cbn. rewrite lookup_insert_eq. done.
  - split_and!; [done..|by intros x ?%not_elem_of_nil|].
    destruct (queue s) as [|hd rest] eqn:Hq; [done|]. cbn [headId] in Heq.
    rewrite decide_False; [done|].
    intros ?%strictEq_string. congruence.
Qed.

(** C6.  A failed dispatch loses nothing.  When the handoff itself throws,
    [maybeSendNext] leaves the record of the tab exactly as it found it
    ([sending] false, queue untouched) and logs no timer, in any state.
    When the tab reports 'ERROR', [sending] is cleared, the queue is
    untouched (the failed item is still at its head), and the log ends with
    the single 400 ms timer, whose firing is one more [maybeSendNext]. *)
Theorem dispatch_failure_keeps_queue
    (msg : message) (sender : option Z) (tab : Z) (e : env) (w : world) :
  type msg = "ERROR" → resolveTab sender msg = Some tab → tab ≠ 0 →
  let s := current w tab in
  (let r := maybeSendNext tab e w in
   let s' := current (final r) tab in
   queue s' = queue s ∧
   (∀ x, x ∈ effects r → isSetTimeout x = false) ∧
   (∀ t m, TabsSendMessage t m false ∈ effects r →
      s' = s ∧ sending s' = false ∧ effects r = [TabsSendMessage t m false])) ∧
  (let r := onMessage msg sender e w in
   let s' := current (final r) tab in
   sending s' = false ∧ queue s' = queue s ∧
   filter (λ x, isSetTimeout x = true) (effects r) = [SetTimeout tab 400] ∧
   (∀ x, x ∈ effects r → isSendText x = false) ∧
   step (TimerFired tab) = maybeSendNext tab).
Proof.
  intros Hty Htab Hnz s. split.
  - cbv zeta. rewrite maybeSendNext_run. fold s.
    unfold final, effects; cbn [fst snd]. rewrite current_holding_eq.
    split; [apply queue_afterSend|]. split; [apply sendLog_no_timer|].
    intros t m. unfold sendLog, afterSend.
    destruct (dispatched s) as [next|] eqn:Hd; [|by intros ?%not_elem_of_nil].
    intros Hin%list_elem_of_singleton. injection Hin as -> -> Hok.
    rewrite <- Hok. apply dispatched_Some in Hd as (?&Hs&?&?).
    split_and!; [|done..]. clearbody s. destruct s; cbn in *; by subst.
  - cbv zeta.
    rewrite (onMessage_routed _ _ _ Htab Hnz), (handle_ERROR _ _ Hty).
    rewrite on_ERROR_run. fold s.
    unfold final, effects; cbn [fst snd]. rewrite current_holding_eq.
    repeat split.
    intros x. rewrite !elem_of_cons.
    intros [->|[->|[->|?%not_elem_of_nil]]]; done.
Qed.

(** * The busy/idle signal *)

Lemma handle_PAGE_STATE tab msg :
  type msg = "PAGE_STATE" → handle tab msg = on_PAGE_STATE tab msg.
Proof. unfold handle. by intros ->. Qed.

(** C7.  'PAGE_STATE' stores [!!msg.busy] in [pageBusy].  When the stored
    value goes from busy to idle, the rest of the handler is exactly one
    [maybeSendNext] on the updated record; when the message reports busy, or
    repeats the stored value, only [pageBusy] is written and the log is
    empty, so nothing is dispatched. *)
Theorem page_state_dispatches_on_idle_edge
    (msg : message) (sender : option Z) (tab : Z) (e : env) (w : world) :
  type msg = "PAGE_STATE" → resolveTab sender msg = Some tab → tab ≠ 0 →
  let s := current w tab in
  let now := ToBoolean (busy msg) in
  let r := onMessage msg sender e w in
  let s' := current (final r) tab in
  pageBusy s' = now ∧ queue s' = queue s ∧ paused s' = paused s ∧
  (pageBusy s = true → now = false →
     r = maybeSendNext tab e (holding tab (set_pageBusy false s) w)) ∧
  (now = true ∨ pageBusy s = now →
     s' = set_pageBusy now s ∧ effects r = [] ∧
     ∀ x, x ∈ effects r → isSendText x = false).
Proof.
  intros Hty Htab Hnz s now r s'. subst r s'.
  rewrite (onMessage_routed _ _ _ Htab Hnz), (handle_PAGE_STATE _ _ Hty).
  rewrite on_PAGE_STATE_run. fold s now.
  destruct (pageBusy s) eqn:Hprev, now eqn:Hnow; cbn [negb andb bool_decide];
    rewrite ?bool_decide_eq_true_2, ?bool_decide_eq_false_2 by done;
    cbn [negb andb]; unfold final, effects; cbn [fst snd];
    rewrite ?current_holding_eq, ?queue_afterSend, ?paused_afterSend,
      ?pageBusy_afterSend; cbn [pageBusy queue paused set_pageBusy].
  - split_and!; try done. intros _. split_and!; try done.
    by intros x ?%not_elem_of_nil.
  - split_and!; try done.
    + intros _ _. by rewrite maybeSendNext_hit.
    + by intros [?|?].
  - split_and!; try done. intros _. split_and!; try done.
    by intros x ?%not_elem_of_nil.
  - split_and!; try done. intros _. split_and!; try done.
    by intros x ?%not_elem_of_nil.
Qed.

(** * Persistence *)

(** C9.  [save] writes for the tab a record of exactly the queue and
    [paused] (the type [saved] has no other field); when the script starts
    again with an empty [tabState], [getState] rebuilds from it a record with
    the same queue, in the same order, and the same [paused], while
    [pageBusy] and [sending] are false whatever they were before. *)
Theorem save_reload_round_trip (tab : Z) (e e' : env) (w : world) :
  let s := current w tab in
  let r := save tab e w in
  let s' := result (getState tab e' (restart (final r))) in
  effects r = [StorageSet (keyFor tab) (Saved (queue s) (paused s))] ∧
  storage (final r) !! keyFor tab = Some (Saved (queue s) (paused s)) ∧
  queue s' = queue s ∧ paused s' = paused s ∧
  pageBusy s' = false ∧ sending s' = false ∧
  s' = current (restart (final r)) tab.
Proof.
  intros s r s'. subst r s'. unfold save.
  erewrite bind_eq by apply getState_run. rewrite prepend_nil. fold s.
  rewrite getState_run.
  unfold final, effects, result, restart, storage_set, current, holding;
    cbn [fst snd tabState storage].
  rewrite lookup_empty, lookup_insert_eq. done.
Qed.

(** * Removing and editing *)

Lemma handle_QUEUE_REMOVE tab msg :
  type msg = "QUEUE_REMOVE" → handle tab msg = on_QUEUE_REMOVE tab msg.
Proof. unfold handle. by intros ->. Qed.

Lemma handle_QUEUE_CLEAR tab msg :
  type msg = "QUEUE_CLEAR" → handle tab msg = on_QUEUE_CLEAR tab msg.
Proof. unfold handle. by intros ->. Qed.

Lemma filter_absent (q : list item) (v : jsval) :
  (∀ it, it ∈ q → JString (id it) ≠ v) →
  filter (λ it, negb (strictEq (JString (id it)) v)) q = q.
Proof.
  intros Habs. induction q as [|it q IH]; [done|].
  rewrite filter_cons_True.
  - f_equal. apply IH. intros it' ?. apply Habs. by right.
  - apply Is_true_true, negb_true_iff, not_true_iff_false.
    intros ?%strictEq_string. eapply Habs; [by left|done].
Qed.

(** C4, as the code has it.  'QUEUE_REMOVE' keeps the items whose id is not
    [msg.id], saves, broadcasts and answers [{ok: true}], whether or not an
    item had that id: the log holds that one response and no error.  When no
    item has the id the queue is unchanged. *)
Theorem remove_always_acknowledges_ok
    (msg : message) (sender : option Z) (tab : Z) (e : env) (w : world) :
  type msg = "QUEUE_REMOVE" → resolveTab sender msg = Some tab → tab ≠ 0 →
  let s := current w tab in
  let r := onMessage msg sender e w in
  let s' := current (final r) tab in
  queue s' = filter (λ it, negb (strictEq (JString (id it)) (msg_id msg))) (queue s) ∧
  effects r = publish tab e s' ++ [SendResponse ROk] ∧
  ((∀ it, it ∈ queue s → JString (id it) ≠ msg_id msg) → queue s' = queue s) ∧
  (∀ it, it ∈ queue s' → JString (id it) ≠ msg_id msg) ∧
  paused s' = paused s ∧ pageBusy s' = pageBusy s ∧ sending s' = sending s.
Proof.
  intros Hty Htab Hnz s r s'. subst r s'.
  rewrite (onMessage_routed _ _ _ Htab Hnz), (handle_QUEUE_REMOVE _ _ Hty).
  rewrite on_QUEUE_REMOVE_run. fold s.
  unfold final, effects; cbn [fst snd]. rewrite current_holding_eq.
  cbn [queue paused pageBusy sending set_queue].
  split_and!; try done.
  - apply filter_absent.
  - intros it [Hkeep _]%list_elem_of_filter ?.
    apply Is_true_true, negb_true_iff in Hkeep.
    assert (strictEq (JString (id it)) (msg_id msg) = true) by by apply strictEq_string.
    congruence.
Qed.

Lemma handle_QUEUE_UPDATE tab msg :
  type msg = "QUEUE_UPDATE" → handle tab msg = on_QUEUE_UPDATE tab msg.
Proof. unfold handle. by intros ->. Qed.

Section FindIndex.

Context {A : Type} (p : A → bool).

Lemma findIndex_range (l : list A) :
  findIndex p l = -1 ∨ 0 ≤ findIndex p l < Z.of_nat (length l).
Proof.
  induction l as [|x l IH]; cbn -[Z.of_nat]; [by left|].
  destruct (p x); [right; lia|].
  destruct (Z.eqb_spec (findIndex p l) (-1)); [by left|right; lia].
Qed.

Lemma findIndex_absent (l : list A) :
  findIndex p l = -1 ↔ ∀ x, x ∈ l → p x = false.
Proof.
  induction l as [|x l IH]; cbn.
  - split; [|done]. by intros _ x ?%not_elem_of_nil.
  - destruct (p x) eqn:Hx.
    + split; [done|]. intros H. specialize (H x (list_elem_of_here _ _)). congruence.
    + destruct (Z.eqb_spec (findIndex p l) (-1)) as [Heq|Hne].
      * split; [|done]. intros _ y [->|?]%elem_of_cons; [done|].
        by apply IH.
      * split.
        -- destruct (findIndex_range l); lia.
        -- intros H. exfalso. apply Hne, IH. intros y ?. apply H. by right.
Qed.

Lemma findIndex_first (l : list A) :
  findIndex p l ≠ -1 →
  ∃ x, l !! Z.to_nat (findIndex p l) = Some x ∧ p x = true ∧
       ∀ j y, (j < Z.to_nat (findIndex p l))%nat → l !! j = Some y → p y = false.
Proof.
  induction l as [|x l IH]; cbn; [done|].
  destruct (p x) eqn:Hx.
  - intros _. exists x. split_and!; [done..|]. intros j y ?. lia.
  - destruct (Z.eqb_spec (findIndex p l) (-1)) as [Heq|Hne]; [done|].
    intros _. destruct (IH Hne) as (y&Hy&Hpy&Hmin).
    destruct (findIndex_range l) as [?|Hr]; [done|].
    replace (Z.to_nat (findIndex p l + 1)) with (S (Z.to_nat (findIndex p l))) by lia.
    exists y. split_and!; [done..|].
    intros [|j] z Hj; cbn; [by intros [= <-]|].
    apply Hmin. lia.
Qed.

End FindIndex.

Lemma current_holding_self tab tab' w :
  current (holding tab (current w tab) w) tab' = current w tab'.
Proof.
  destruct (decide (tab' = tab)) as [->|?].
  - apply current_holding_eq.
  - by apply current_holding_ne.
Qed.

Lemma fmap_id_insert (q : list item) n old t :
  q !! n = Some old → id <$> <[n := Item (id old) t]> q = id <$> q.
Proof.
  intros Hn. rewrite list_fmap_insert. cbn.
  apply list_insert_id. by rewrite list_lookup_fmap, Hn.
Qed.

(** C8.  'QUEUE_UPDATE' looks for the first item whose id is
    [String(msg.id || '')].  When there is one, its text becomes the trimmed
    [String(msg.text || '')], its id and its place in the queue stay, every
    other item is untouched, the record is saved and broadcast, and the
    answer is [{ok: true}].  When there is none, the answer is
    [{ok: false, error: 'not_found'}], and no record changes, nothing is
    stored and nothing is broadcast. *)
Theorem edit_replaces_text_in_place
    (msg : message) (sender : option Z) (tab : Z) (e : env) (w : world) :
  type msg = "QUEUE_UPDATE" → resolveTab sender msg = Some tab → tab ≠ 0 →
  let s := current w tab in
  let i := ToString (or (msg_id msg) (JString [])) in
  let t := trim (ToString (or (msg_text msg) (JString []))) in
  let r := onMessage msg sender e w in
  let s' := current (final r) tab in
  ((∃ it, it ∈ queue s ∧ id it = i) →
     ∃ n old,
       queue s !! n = Some old ∧ id old = i ∧
       (∀ j y, (j < n)%nat → queue s !! j = Some y → id y ≠ i) ∧
       queue s' = <[n := Item i t]> (queue s) ∧
       id <$> queue s' = id <$> queue s ∧
       length (queue s') = length (queue s) ∧
       paused s' = paused s ∧ pageBusy s' = pageBusy s ∧ sending s' = sending s ∧
       effects r = publish tab e s' ++ [SendResponse ROk] ∧
       storage (final r) !! keyFor tab = Some (durable s')) ∧
  ((∀ it, it ∈ queue s → id it ≠ i) →
     effects r = [SendResponse (RError "not_found")] ∧
     storage (final r) = storage w ∧
     ∀ tab', current (final r) tab' = current w tab').
Proof.
  intros Hty Htab Hnz s i t r s'. subst r s'.
  rewrite (onMessage_routed _ _ _ Htab Hnz), (handle_QUEUE_UPDATE _ _ Hty).
  rewrite on_QUEUE_UPDATE_run. fold s i t.
  set (p := λ it : item, bool_decide (id it = i)).
  set (idx := findIndex p (queue s)).
  split.
  - intros (it&Hin&Hid).
    assert (Hidx : idx ≠ -1).
    { unfold idx. intros Habs. pose proof (proj1 (findIndex_absent p (queue s)) Habs it Hin) as Hpit. clear Habs. rename Hpit into Habs.
      unfold p in Habs. by rewrite bool_decide_eq_true_2 in Habs. }
    destruct (findIndex_first p (queue s) Hidx) as (old&Hold&Hp&Hmin).
    fold idx in Hold, Hmin. unfold p in Hp. apply bool_decide_eq_true in Hp.
    destruct (Z.eqb_spec idx (-1)) as [?|_]; [done|]. cbn [negb].
    unfold final, effects; cbn [fst snd]. rewrite current_holding_eq, Hold.
    cbn [queue paused pageBusy sending set_queue storage holding stored].
    rewrite lookup_insert_eq, Hp.
    exists (Z.to_nat idx), old. split_and!; try done.
    + intros j y Hj Hy Hyi. specialize (Hmin j y Hj Hy).
      unfold p in Hmin. by rewrite bool_decide_eq_true_2 in Hmin.
    + rewrite <- Hp. by apply fmap_id_insert.
    + apply length_insert.
  - intros Habs.
    assert (Hidx : idx = -1).
    { unfold idx. apply findIndex_absent. intros it Hin. unfold p.
      apply bool_decide_eq_false_2. by apply Habs. }
    rewrite Hidx. cbn [Z.eqb negb].
    unfold final, effects; cbn [fst snd].
    split_and!; [done..|]. intros tab'. apply current_holding_self.
Qed.

(** * Trimming and identifiers *)

Lemma trimStart_split (s : jsstring) :
  ∃ pre, s = pre ++ trimStart s ∧ Forall (λ c, isWhiteSpace c = true) pre.
Proof.
  induction s as [|c s (pre&Hs&Hpre)]; [by exists []|].
  cbn [trimStart]. destruct (isWhiteSpace c) eqn:Hc.
  - exists (c :: pre). split; [cbn; congruence|by constructor].
  - by exists [].
Qed.

Lemma trimStart_head (s : jsstring) c :
  head (trimStart s) = Some c → isWhiteSpace c = false.
Proof.
  induction s as [|c' s IH]; [done|]. cbn [trimStart].
  destruct (isWhiteSpace c') eqn:Hc; [done|]. cbn. congruence.
Qed.

Lemma trimStart_whitespace (s : jsstring) :
  Forall (λ c, isWhiteSpace c = true) s → trimStart s = [].
Proof. induction 1 as [|c s Hc _ IH]; [done|]. cbn. by rewrite Hc. Qed.

Lemma trimEnd_split (s : jsstring) :
  ∃ post, s = trimEnd s ++ post ∧ Forall (λ c, isWhiteSpace c = true) post.
Proof.
  unfold trimEnd. destruct (trimStart_split (reverse s)) as (pre&Hs&Hpre).
  exists (reverse pre). split.
  - rewrite <- reverse_app, <- Hs. by rewrite reverse_involutive.
  - by apply Forall_reverse.
Qed.

Lemma trimEnd_last (s : jsstring) c :
  last (trimEnd s) = Some c → isWhiteSpace c = false.
Proof.
  unfold trimEnd. rewrite last_reverse. apply trimStart_head.
Qed.

Lemma trimEnd_head (s : jsstring) c :
  (∀ c, head s = Some c → isWhiteSpace c = false) →
  head (trimEnd s) = Some c → isWhiteSpace c = false.
Proof.
  intros Hs Hc. destruct (trimEnd_split s) as (post&Heq&_).
  apply Hs. rewrite Heq. destruct (trimEnd s); [done|]. exact Hc.
Qed.

(** What [trim] returns: the input without a run of white space at either
    end, and with none left there. *)
Lemma trim_spec (s : jsstring) :
  ∃ pre post,
    s = pre ++ trim s ++ post ∧
    Forall (λ c, isWhiteSpace c = true) pre ∧
    Forall (λ c, isWhiteSpace c = true) post ∧
    (∀ c, head (trim s) = Some c → isWhiteSpace c = false) ∧
    (∀ c, last (trim s) = Some c → isWhiteSpace c = false).
Proof.
  unfold trim. destruct (trimStart_split s) as (pre&Hs&Hpre).
  destruct (trimEnd_split (trimStart s)) as (post&Ht&Hpost).
  exists pre, post. split_and!; [congruence|done..| |].
  - intros c. apply trimEnd_head. apply trimStart_head.
  - apply trimEnd_last.
Qed.

Lemma trim_whitespace (s : jsstring) :
  Forall (λ c, isWhiteSpace c = true) s → trim s = [].
Proof. intros Hs. unfold trim. by rewrite trimStart_whitespace. Qed.

Lemma hexDigit_inj a b : (a < 16)%N → (b < 16)%N → hexDigit a = hexDigit b → a = b.
Proof.
  unfold hexDigit. intros ??.
  destruct (N.ltb_spec a 10), (N.ltb_spec b 10); lia.
Qed.

Lemma toHex2_inj a b : (a < 256)%N → (b < 256)%N → toHex2 a = toHex2 b → a = b.
Proof.
  unfold toHex2. intros Ha Hb [= Hhi Hlo].
  apply hexDigit_inj in Hhi; [|by apply N.mod_upper_bound..].
  apply hexDigit_inj in Hlo; [|by apply N.mod_upper_bound..].
  rewrite !N.mod_small in Hhi by (apply N.Div0.div_lt_upper_bound; lia).
  rewrite (N.div_mod a 16), (N.div_mod b 16) by done. congruence.
Qed.

Lemma hex_join_inj (a b : list N) :
  Forall (λ x, (x < 256)%N) a → Forall (λ x, (x < 256)%N) b →
  mjoin (toHex2 <$> a) = mjoin (toHex2 <$> b) → a = b.
Proof.
  intros Ha. revert b.
  induction Ha as [|x a Hx _ IH]; intros b Hb; destruct Hb as [|y b Hy Hb];
    cbn; try done.
  intros [= Hhi Hlo Hrest].
  f_equal; [|by apply IH].
  apply toHex2_inj; [done..|]. unfold toHex2. congruence.
Qed.

Lemma getRandomValues_bytes e a : Forall (λ x, (x < 256)%N) (getRandomValues e a).
Proof.
  unfold getRandomValues. apply Forall_fmap, Forall_forall. intros k _.
  cbn. by apply N.mod_upper_bound.
Qed.

(** Two identifiers are the same only when the bytes drawn for them are:
    an identifier is as fresh as the random bytes behind it. *)
Lemma randomId_inj (e e' : env) (len : nat) :
  randomId e len = randomId e' len →
  getRandomValues e (replicate len 0%N) = getRandomValues e' (replicate len 0%N).
Proof. unfold randomId. apply hex_join_inj; apply getRandomValues_bytes. Qed.

Lemma hex_join_length (a : list N) :
  length (mjoin (toHex2 <$> a)) = (2 * length a)%nat.
Proof.
  induction a as [|x a IH]; [done|].
  change (length (toHex2 x ++ mjoin (toHex2 <$> a)) = (2 * length (x :: a))%nat).
  rewrite length_app, IH. cbn. lia.
Qed.

Lemma randomId_length (e : env) (len : nat) :
  length (randomId e len) = (2 * len)%nat.
Proof.
  unfold randomId, getRandomValues.
  by rewrite hex_join_length, length_fmap, length_seq, length_replicate.
Qed.

(** * Any trigger *)

(** Case analysis on what a trigger runs, each case rewritten to the
    outcome of its handler. *)
Ltac handler_cases :=
  unfold handle;
  repeat
    match goal with
    | |- context [if String.eqb ?a ?b then _ else _] =>
        destruct (String.eqb a b) eqn:?;
        [ first [ rewrite on_HELLO_run | rewrite on_PAGE_STATE_run
                | rewrite on_QUEUE_ADD_run | rewrite on_QUEUE_REMOVE_run
                | rewrite on_QUEUE_UPDATE_run | rewrite on_QUEUE_CLEAR_run
                | rewrite on_QUEUE_GET_run | rewrite on_PAUSE_run
                | rewrite on_RESUME_run | rewrite on_SUBMITTED_run
                | rewrite on_ERROR_run ]
        | ]
    end.

Ltac branch_cases :=
  repeat match goal with
         | |- context [if ?c then (_, _, _) else _] => destruct c eqn:?
         end.

Lemma handle_frame tab0 tab msg e w :
  tab ≠ tab0 → current (final (handle tab0 msg e w)) tab = current w tab.
Proof.
  intros Hne. handler_cases; cbv zeta; branch_cases;
    unfold final, skip, mret, M_ret; cbn [fst snd];
    rewrite ?current_holding_ne, ?current_stored_ne by done; done.
Qed.

Lemma onMessage_cases msg sender e w :
  onMessage msg sender e w = (tt, w, []) ∨
  ∃ tab, resolveTab sender msg = Some tab ∧
         onMessage msg sender e w = handle tab msg e w.
Proof.
  unfold onMessage. destruct (resolveTab sender msg) as [tab|]; [|by left].
  destruct ((tab =? 0) && _); [by left|right; eauto].
Qed.

Lemma onMessage_ignored_or_handled msg sender e w :
  (onMessage msg sender e w = (tt, w, []) ∧
   (resolveTab sender msg = None ∨ resolveTab sender msg = Some 0)) ∨
  ∃ tab, resolveTab sender msg = Some tab ∧
         (tab ≠ 0 ∨ type msg = "PING") ∧
         onMessage msg sender e w = handle tab msg e w.
Proof.
  unfold onMessage. destruct (resolveTab sender msg) as [tab|]; [|left; eauto].
  destruct (Z.eqb_spec tab 0) as [->|Hnz]; cbn [andb].
  - destruct (String.eqb_spec (type msg) "PING") as [Hp|Hp]; cbn [negb].
    + right. eauto.
    + left. eauto.
  - right. eauto.
Qed.

(** A trigger leaves the records of the other tabs alone. *)
Lemma step_frame t e w tab :
  target t ≠ Some tab → current (final (step t e w)) tab = current w tab.
Proof.
  destruct t as [msg sender|tab0]; cbn [step target]; intros Hne.
  - destruct (onMessage_cases msg sender e w) as [->|(tab0&Hres&->)]; [done|].
    apply handle_frame. congruence.
  - rewrite maybeSendNext_run. unfold final; cbn [fst snd].
    apply current_holding_ne. congruence.
Qed.

(** * The invariant on items in flight *)

Lemma inFlightQueued_afterSend e s : inFlightQueued s → inFlightQueued (afterSend e s).
Proof.
  unfold inFlightQueued, afterSend. intros Hs.
  destruct (dispatched s) as [next|] eqn:Hd; [|done].
  apply dispatched_Some in Hd as (_&_&_&rest&Hq). cbn. intros _. by rewrite Hq.
Qed.

Lemma insert_not_nil {A} (l : list A) n x : l ≠ [] → <[n := x]> l ≠ [].
Proof. intros Hl Heq. apply Hl. apply (f_equal length) in Heq. rewrite length_insert in Heq. by destruct l. Qed.

Lemma filter_all_out {A} (f : A → bool) (l : list A) :
  Forall (λ x, f x = true) l → filter (λ x, negb (f x)) l = [].
Proof.
  induction 1 as [|x l Hx _ IH]; [done|].
  rewrite filter_cons, IH. by rewrite Hx.
Qed.

Lemma filter_some_left {A} (f : A → bool) (l : list A) :
  ¬ Forall (λ x, f x = true) l → filter (λ x, negb (f x)) l ≠ [].
Proof.
  intros Hn Hnil. apply Hn, Forall_forall. intros x Hx.
  destruct (f x) eqn:Hf; [done|].
  assert (x ∈ filter (λ x, negb (f x)) l) as Hin
    by (apply list_elem_of_filter; split; [by rewrite Hf|done]).
  rewrite Hnil in Hin. by apply not_elem_of_nil in Hin.
Qed.

(** C3, as the code has it.  A trigger keeps "[sending] implies a non-empty
    queue" true of every tab for which it was true, with two exceptions, both
    met only while [sending] is set: a 'QUEUE_CLEAR', and a 'QUEUE_REMOVE'
    whose [id] is the id of every queued item.  These two leave the queue
    empty and [sending] set (the item in flight is gone from the queue, which
    the 'SUBMITTED' case then meets as a desynchronised head).  Any other
    'QUEUE_REMOVE', that of the head in flight included, leaves an item
    behind. *)
Theorem trigger_keeps_in_flight_item_queued
    (t : trigger) (e : env) (w : world) (tab : Z) :
  inFlightQueued (current w tab) →
  let s' := current (final (step t e w)) tab in
  (¬ cancelsInFlight t tab (current w tab) → inFlightQueued s') ∧
  (cancelsInFlight t tab (current w tab) → sending s' = true ∧ queue s' = []).
Proof.
  intros Hinv s'. subst s'. split.
  - intros Hk.
    destruct (decide (target t = Some tab)) as [Ht|Ht]; [|by rewrite step_frame].
    destruct t as [msg sender|tab0]; cbn [step target cancelsInFlight] in *.
    + destruct (onMessage_ignored_or_handled msg sender e w)
        as [[-> _]|(tab0&Hres&Hnz&->)]; [done|].
      assert (tab0 = tab) as -> by congruence.
      handler_cases; cbv zeta; branch_cases;
        unfold final, skip, mret, M_ret; cbn [fst snd];
        rewrite ?current_holding_eq;
        try apply inFlightQueued_afterSend.
      all: try done.
      all: repeat match goal with
                  | H : String.eqb _ _ = true |- _ => apply String.eqb_eq in H
                  | H : String.eqb _ _ = false |- _ => apply String.eqb_neq in H
                  end.
      all: assert (tab ≠ 0) as Hnz' by (destruct Hnz; congruence).
      all: unfold inFlightQueued in *;
        cbn [sending queue set_queue set_paused set_pageBusy set_sending].
      all: try done.
      * intros _. by destruct (queue _).
      * intros Hs. apply filter_some_left. intros Hall. apply Hk. eauto 10.
      * destruct (queue (current w tab) !! _); [|done]. cbn.
        intros Hs. by apply insert_not_nil, Hinv.
      * intros Hs. exfalso. apply Hk. eauto 10.
    + assert (tab0 = tab) as -> by congruence.
      rewrite maybeSendNext_run. unfold final; cbn [fst snd].
      rewrite current_holding_eq. by apply inFlightQueued_afterSend.
  - destruct t as [msg sender|tab0]; cbn [step cancelsInFlight]; [|done].
    intros (Hres&Hnz&Hs&[Hty|[Hty Hall]]);
      rewrite (onMessage_routed _ _ _ Hres Hnz).
    + rewrite (handle_QUEUE_CLEAR _ _ Hty), on_QUEUE_CLEAR_run.
      unfold final; cbn [fst snd]. by rewrite current_holding_eq.
    + rewrite (handle_QUEUE_REMOVE _ _ Hty), on_QUEUE_REMOVE_run.
      unfold final; cbn [fst snd]. rewrite current_holding_eq.
      cbn [sending queue set_queue]. split; [done|]. by apply filter_all_out.
Qed.

(** C3, as stated, fails: after 'QUEUE_ADD' has dispatched the only item,
    'QUEUE_CLEAR' empties the queue and leaves [sending] set. *)
Lemma clear_while_in_flight_empties_queue :
  let w := (run [(enqueue "a", calm)] blank).1 in
  let w' := final (step (Incoming (msgOf "QUEUE_CLEAR" JUndefined JUndefined) (Some 7)) calm w) in
  reachable w ∧ inFlightQueued (current w 7) ∧
  sending (current w' 7) = true ∧ queue (current w' 7) = [] ∧
  ¬ inFlightQueued (current w' 7).
Proof.
  cbv zeta. split_and!.
  - by eexists.
  - intros _. vm_compute. done.
  - vm_compute. reflexivity.
  - vm_compute. reflexivity.
  - intros H. apply H; vm_compute; reflexivity.
Qed.

(** C4, as stated, fails: removing an id that no item has is answered
    [{ok: true}], not 'not_found'. *)
Lemma remove_of_absent_id_answers_ok :
  let msg := msgOf "QUEUE_REMOVE" JUndefined (JString (lit "nope")) in
  let r := onMessage msg (Some 7) calm twoQueued in
  (∀ it, it ∈ queue (current twoQueued 7) → JString (id it) ≠ msg_id msg) ∧
  queue (current (final r) 7) = queue (current twoQueued 7) ∧
  filter (λ x, isResponse x = true) (effects r) = [SendResponse ROk] ∧
  SendResponse (RError "not_found") ∉ effects r.
Proof.
  cbv zeta. split_and!.
  - intros it Hin%list_elem_of_In. vm_compute in Hin.
    destruct Hin as [<-|[<-|[]]]; discriminate.
  - vm_compute. reflexivity.
  - vm_compute. reflexivity.
  - intros Hin%list_elem_of_In. vm_compute in Hin.
    destruct Hin as [?|[?|[?|[]]]]; discriminate.
Qed.

(** * The answer to an enqueue *)

Lemma handle_QUEUE_ADD tab msg :
  type msg = "QUEUE_ADD" → handle tab msg = on_QUEUE_ADD tab msg.
Proof. unfold handle. by intros ->. Qed.

Lemma sendLog_no_response tab e s :
  filter (λ x, isResponse x = true) (sendLog tab e s) = [].
Proof. unfold sendLog. by destruct (dispatched s). Qed.

(** * First in, first out *)

Lemma enqueues_other tab t e :
  target t ≠ Some tab → enqueues tab (t, e) = [].
Proof.
  intros Ht. unfold enqueues. destruct t as [msg sender|tab0]; cbn in *; [|done].
  rewrite bool_decide_eq_false_2; [done|]. by intros (?&_).
Qed.

Lemma enqueues_not_add tab msg sender e :
  type msg ≠ "QUEUE_ADD" → enqueues tab (Incoming msg sender, e) = [].
Proof.
  intros Ht. unfold enqueues; cbn. rewrite bool_decide_eq_false_2; [done|].
  by intros (_&_&?).
Qed.

Lemma enqueues_add tab msg sender e :
  resolveTab sender msg = Some tab → tab ≠ 0 → type msg = "QUEUE_ADD" →
  enqueues tab (Incoming msg sender, e) =
  [Item (randomId e 8)
        (trim (ToString (nullish (msg_text msg) (JString []))))].
Proof.
  intros. unfold enqueues; cbn. by rewrite bool_decide_eq_true_2.
Qed.

Lemma sublist_filter_ids (P : item → Prop) `{!∀ x, Decision (P x)} (q : list item) :
  id <$> filter P q `sublist_of` id <$> q.
Proof. apply fmap_sublist, sublist_filter. Qed.

(** What one trigger does to the identifiers in the queue of a tab. *)
Lemma step_queue t e w tab :
  let q := queue (current w tab) in
  let q' := queue (current (final (step t e w)) tab) in
  id <$> q' `sublist_of` id <$> (q ++ enqueues tab (t, e)) ∧
  (takesOut t = false → id <$> q' = id <$> (q ++ enqueues tab (t, e))) ∧
  (kind t = "QUEUE_ADD" → q' = q ++ enqueues tab (t, e)).
Proof.
  intros q q'. subst q q'.
  destruct (decide (target t = Some tab)) as [Ht|Ht].
  2:{ rewrite step_frame, enqueues_other, app_nil_r by done. done. }
  destruct t as [msg sender|tab0]; cbn [step target kind] in *.
  - destruct (onMessage_ignored_or_handled msg sender e w)
      as [[-> Hwhy]|(tab0&Hres&Hnz&->)].
    { unfold enqueues; cbn. rewrite bool_decide_eq_false_2, app_nil_r; [done|].
      intros (?&?&_). destruct Hwhy; congruence. }
    assert (tab0 = tab) as -> by congruence.
    unfold takesOut; cbn [kind].
    handler_cases; cbv zeta; branch_cases;
      unfold final, skip, mret, M_ret; cbn [fst snd];
      rewrite ?current_holding_eq, ?queue_afterSend;
      cbn [sending queue set_queue set_paused set_pageBusy set_sending];
      repeat match goal with
             | H : String.eqb _ _ = true |- _ => apply String.eqb_eq in H
             | H : String.eqb _ _ = false |- _ => apply String.eqb_neq in H
             end.
    all: try (rewrite enqueues_not_add, app_nil_r by congruence).
    all: try (split_and!; [done..| intros; congruence]).
    + rewrite enqueues_add; [done..| |done]. destruct Hnz; congruence.
    + split_and!; [apply sublist_filter_ids| |intros; congruence].
      intros Hb%bool_decide_eq_false. tauto.
    + destruct (queue (current w tab) !! _) eqn:Hold; cbn [queue set_queue];
        [|split_and!; [done..|intros; congruence]].
      rewrite (fmap_id_insert _ _ _ _ Hold).
      split_and!; [done..|intros; congruence].
    + split_and!; [apply sublist_nil_l| |intros; congruence].
      intros Hb%bool_decide_eq_false. tauto.
    + split_and!; [| |intros; congruence].
      * apply fmap_sublist. destruct (queue (current w tab)); [done|].
        by apply sublist_cons.
      * intros Hb%bool_decide_eq_false. tauto.
  - assert (tab0 = tab) as -> by congruence.
    rewrite maybeSendNext_run. unfold final; cbn [fst snd].
    rewrite current_holding_eq, queue_afterSend, app_nil_r. done.
Qed.

Lemma run_cons te ts w :
  (run (te :: ts) w).1 = (run ts (final (step te.1 te.2 w))).1.
Proof. by destruct te. Qed.

Lemma enqueued_cons tab te ts :
  enqueued tab (te :: ts) = enqueues tab te ++ enqueued tab ts.
Proof. reflexivity. Qed.

(** Texts as [trim] leaves them. *)
Lemma enqueued_trimmed tab ts it c :
  it ∈ enqueued tab ts →
  head (text it) = Some c ∨ last (text it) = Some c → isWhiteSpace c = false.
Proof.
  unfold enqueued. intros (te&Hit&_)%list_elem_of_bind.
  unfold enqueues in Hit. destruct te.1 as [msg sender|]; [|by apply not_elem_of_nil in Hit].
  case_bool_decide; [|by apply not_elem_of_nil in Hit].
  apply list_elem_of_singleton in Hit as ->. cbn [text].
  destruct (trim_spec (ToString (nullish (msg_text msg) (JString []))))
    as (_&_&_&_&_&Hhd&Hlast).
  intros [?|?]; eauto.
Qed.

Lemma enqueued_ids tab ts :
  id <$> enqueued tab ts = (λ d, mjoin (toHex2 <$> d)) <$> draws tab ts.
Proof.
  induction ts as [|te ts IH]; [done|].
  change (id <$> (enqueues tab te ++ enqueued tab ts) =
          (λ d, mjoin (toHex2 <$> d)) <$>
            ((if bool_decide (enqueues tab te = []) then [] else [draw te.2])
             ++ draws tab ts)).
  rewrite !fmap_app, IH. f_equal.
  unfold enqueues. destruct te.1 as [msg sender|]; [|done].
  destruct (bool_decide (resolveTab sender msg = Some tab ∧ _)); done.
Qed.

Lemma draws_bytes tab ts d : d ∈ draws tab ts → Forall (λ x, (x < 256)%N) d.
Proof.
  unfold draws. intros (te&Hd&_)%list_elem_of_bind.
  destruct (bool_decide _); [by apply not_elem_of_nil in Hd|].
  apply list_elem_of_singleton in Hd as ->. apply getRandomValues_bytes.
Qed.

(** Distinct draws give distinct identifiers. *)
Lemma enqueued_ids_fresh tab ts :
  NoDup (draws tab ts) → NoDup (id <$> enqueued tab ts).
Proof.
  intros Hnd. rewrite enqueued_ids.
  apply NoDup_fmap_2_strong; [|done].
  intros a b Ha Hb. apply hex_join_inj; by eapply draws_bytes.
Qed.

(** C5.  Over any run of triggers, the identifiers in the queue of a tab
    are, in order, among the identifiers already queued followed by those
    the 'QUEUE_ADD' messages for the tab generated, in the order the
    messages came; nothing is reordered by the removals and edits in between.
    When the run takes nothing out, they are exactly those; when the run is
    only 'QUEUE_ADD' messages, the queue is the old queue followed by the
    enqueued items, each [{id, text}] holding the identifier generated for
    it and its trimmed text.  The identifiers generated are pairwise distinct
    whenever the random bytes drawn for them are. *)
Theorem enqueue_order_is_queue_order
    (tab : Z) (ts : list (trigger * env)) (w : world) :
  let q := queue (current w tab) in
  let q' := queue (current (run ts w).1 tab) in
  id <$> q' `sublist_of` id <$> (q ++ enqueued tab ts) ∧
  (Forall (λ te, takesOut te.1 = false) ts →
     id <$> q' = id <$> (q ++ enqueued tab ts)) ∧
  (Forall (λ te, kind te.1 = "QUEUE_ADD") ts → q' = q ++ enqueued tab ts) ∧
  (∀ it c, it ∈ enqueued tab ts →
     head (text it) = Some c ∨ last (text it) = Some c → isWhiteSpace c = false) ∧
  (NoDup (draws tab ts) → NoDup (id <$> enqueued tab ts)).
Proof.
  cbv zeta. split_and!; [..|apply enqueued_trimmed|apply enqueued_ids_fresh].
  - revert w. induction ts as [|[t e] ts IH]; intros w.
    + cbn. by rewrite app_nil_r.
    + rewrite run_cons, enqueued_cons. cbn [fst snd].
      etrans; [apply IH|].
      destruct (step_queue t e w tab) as (Hsub&_&_).
      rewrite app_assoc, !(fmap_app _ _ (enqueued tab ts)).
      by apply sublist_app.
  - intros Hall. revert w. induction Hall as [|[t e] ts Ht _ IH]; intros w.
    + cbn. by rewrite app_nil_r.
    + rewrite run_cons, enqueued_cons. cbn [fst snd] in *.
      rewrite IH.
      destruct (step_queue t e w tab) as (_&Hex&_).
      rewrite app_assoc, !(fmap_app _ _ (enqueued tab ts)), (Hex Ht). done.
  - intros Hall. revert w. induction Hall as [|[t e] ts Ht _ IH]; intros w.
    + cbn. by rewrite app_nil_r.
    + rewrite run_cons, enqueued_cons. cbn [fst snd] in *.
      rewrite IH.
      destruct (step_queue t e w tab) as (_&_&Hex).
      rewrite app_assoc, (Hex Ht). done.
Qed.

Lemma run_queue_sublist ts w tab :
  id <$> queue (current (run ts w).1 tab)
  `sublist_of` id <$> (queue (current w tab) ++ enqueued tab ts).
Proof.
  revert w. induction ts as [|[t e] ts IH]; intros w.
  - cbn. by rewrite app_nil_r.
  - rewrite run_cons, enqueued_cons. cbn [fst snd].
    etrans; [apply IH|].
    destruct (step_queue t e w tab) as (Hsub&_&_).
    rewrite app_assoc, !(fmap_app _ _ (enqueued tab ts)).
    by apply sublist_app.
Qed.

(** An identifier spelled by bytes that no enqueue of the run drew, and
    that no item had before the run, is the id of no queued item. *)
Lemma undrawn_id_not_queued ts w0 tab (d : list N) :
  Forall (λ x, (x < 256)%N) d →
  d ∉ draws tab ts →
  (∀ it, it ∈ queue (current w0 tab) → id it ≠ mjoin (toHex2 <$> d)) →
  mjoin (toHex2 <$> d) ∉ (id <$> queue (current (run ts w0).1 tab)).
Proof.
  intros Hd Hnew Hold Hin.
  eapply elem_of_sublist in Hin; [|apply run_queue_sublist].
  rewrite fmap_app, elem_of_app, enqueued_ids in Hin.
  destruct Hin as [(it&Hi&Hit)%list_elem_of_fmap|(d'&Hi&Hd')%list_elem_of_fmap].
  - by eapply Hold.
  - apply hex_join_inj in Hi; [congruence|done|by eapply draws_bytes].
Qed.

(** * Enqueueing *)

(** C10.  'QUEUE_ADD' has no rejecting path: whatever [msg.text] holds, one
    item is pushed at the end of the queue and the only response is
    [{ok: true, id}] with the identifier just generated.  The text of the
    item is the trimmed [String(msg.text ?? '')]: the empty string when the
    field is absent or null, or holds nothing but white space.  The
    identifier is sixteen characters that spell the eight bytes just drawn,
    and nothing else spells them; it is fresh as far as the random source
    is: when the tab came to its queue by a run in which no enqueue drew
    these bytes, from a queue that did not hold the identifier, no item
    queued has it. *)
Theorem enqueue_never_rejects
    (msg : message) (sender : option Z) (tab : Z) (e : env) (w : world) :
  type msg = "QUEUE_ADD" → resolveTab sender msg = Some tab → tab ≠ 0 →
  let s := current w tab in
  let i := randomId e 8 in
  let t := trim (ToString (nullish (msg_text msg) (JString []))) in
  let r := onMessage msg sender e w in
  let s' := current (final r) tab in
  queue s' = queue s ++ [Item i t] ∧
  filter (λ x, isResponse x = true) (effects r) = [SendResponse (ROkId i)] ∧
  storage (final r) !! keyFor tab = Some (Saved (queue s ++ [Item i t]) (paused s)) ∧
  (msg_text msg = JUndefined ∨ msg_text msg = JNull ∨
   (∃ ws, msg_text msg = JString ws ∧ Forall (λ c, isWhiteSpace c = true) ws) →
   t = []) ∧
  length i = 16%nat ∧
  (∀ e0, randomId e0 8 = i ↔ draw e0 = draw e) ∧
  (∀ ts w0, w = (run ts w0).1 →
     draw e ∉ draws tab ts →
     (∀ it, it ∈ queue (current w0 tab) → id it ≠ i) →
     (i ∉ id <$> queue s) ∧
     (NoDup (id <$> queue s) → NoDup (id <$> queue s'))).
Proof.
  intros Hty Htab Hnz s i t r s'. subst r s'.
  rewrite (onMessage_routed _ _ _ Htab Hnz), (handle_QUEUE_ADD _ _ Hty).
  rewrite on_QUEUE_ADD_run. fold s i t.
  unfold final, effects; cbn [fst snd]. rewrite current_holding_eq, queue_afterSend.
  assert (Hfresh : ∀ ts w0, w = (run ts w0).1 → draw e ∉ draws tab ts →
            (∀ it, it ∈ queue (current w0 tab) → id it ≠ i) → i ∉ (id <$> queue s)).
  { intros ts w0 -> Hnew Hold. subst s.
    apply (undrawn_id_not_queued ts w0 tab (draw e));
      [apply getRandomValues_bytes|done..]. }
  split_and!.
  - reflexivity.
  - rewrite !filter_app, sendLog_no_response. reflexivity.
  - cbn [holding stored storage]. by rewrite lookup_insert_eq.
  - unfold t. intros [->|[->|(ws&->&Hws)]]; [done..|]. by apply trim_whitespace.
  - apply randomId_length.
  - intros e0. split; [apply randomId_inj|]. unfold i, randomId, draw. by intros ->.
  - intros ts w0 Hw Hnew Hold. split; [by eapply Hfresh|].
    intros Hnd. cbn [queue set_queue]. rewrite fmap_app. apply NoDup_app.
    split_and!; [done| |apply NoDup_singleton].
    intros x Hx ->%list_elem_of_singleton. by eapply Hfresh.
Qed.

(** * Handoffs over a run *)

Lemma sendLog_elem tab e s x :
  x ∈ sendLog tab e s →
  ∃ next rest,
    queue s = next :: rest ∧ paused s = false ∧ pageBusy s = false ∧
    sending s = false ∧
    x = TabsSendMessage tab (SEND_TEXT (text next) (id next))
          (tabsReachable e (SEND_TEXT (text next) (id next))) ∧
    afterSend e s = set_sending (tabsReachable e (SEND_TEXT (text next) (id next))) s.
Proof.
  unfold sendLog, afterSend.
  destruct (dispatched s) as [next|] eqn:Hd; [|by intros ?%not_elem_of_nil].
  intros ->%list_elem_of_singleton.
  apply dispatched_Some in Hd as (?&?&?&rest&?). eauto 10.
Qed.

Ltac split_log H :=
  repeat first
    [ apply elem_of_app in H as [H|H]
    | apply elem_of_cons in H as [H|H]
    | by apply not_elem_of_nil in H
    | discriminate H ].

(** Whatever the trigger, an item is handed to a tab only while nothing is
    in flight there; it is the head of the queue the trigger leaves, and
    [sending] is left telling whether the handoff went through. *)
Lemma handoff_in_step t e w tab txt i ok :
  TabsSendMessage tab (SEND_TEXT txt i) ok ∈ effects (step t e w) →
  sending (current w tab) = false ∧
  (∃ rest, queue (current (final (step t e w)) tab) = Item i txt :: rest) ∧
  sending (current (final (step t e w)) tab) = ok.
Proof.
  destruct t as [msg sender|tab0]; cbn [step].
  - destruct (onMessage_ignored_or_handled msg sender e w)
      as [[-> _]|(tab0&_&_&->)]; [by intros ?%not_elem_of_nil|].
    handler_cases; cbv zeta; branch_cases;
      unfold final, effects, skip, mret, M_ret, publish; cbn [fst snd];
      intros Hin; split_log Hin.
    all: apply sendLog_elem in Hin as (next&rest&Hq&_&_&Hs&[= -> -> -> ->]&->).
    all: rewrite current_holding_eq; cbn in Hq, Hs |- *.
    all: destruct next; cbn; eauto.
  - rewrite maybeSendNext_run. unfold final, effects; cbn [fst snd].
    intros (next&rest&Hq&_&_&Hs&[= -> -> -> ->]&->)%sendLog_elem.
    rewrite current_holding_eq; cbn in Hq, Hs |- *.
    destruct next; cbn; eauto.
Qed.

Lemma afterSend_in_flight e s : sending s = true → afterSend e s = s.
Proof.
  intros Hs. unfold afterSend.
  assert (dispatched s = None) as -> by (apply dispatched_None; eauto). done.
Qed.

(** [sending] goes from true to false only on the outcome of the dispatch. *)
Lemma sending_cleared_by_outcome t e w tab :
  sending (current w tab) = true →
  sending (current (final (step t e w)) tab) = false →
  target t = Some tab ∧ (kind t = "SUBMITTED" ∨ kind t = "ERROR").
Proof.
  intros Hs Hs'.
  destruct (decide (target t = Some tab)) as [Ht|Ht];
    [|rewrite step_frame in Hs' by done; congruence].
  split; [done|].
  destruct t as [msg sender|tab0]; cbn [step target kind] in *.
  - destruct (onMessage_ignored_or_handled msg sender e w)
      as [[Hr _]|(tab0&Hres&_&Hr)]; rewrite Hr in Hs'; [cbn in Hs'; congruence|].
    assert (tab0 = tab) as -> by congruence. clear Hr. revert Hs'.
    handler_cases; cbv zeta; branch_cases;
      unfold final, skip, mret, M_ret; cbn [fst snd];
      rewrite ?current_holding_eq;
      repeat match goal with
             | H : String.eqb _ _ = true |- _ => apply String.eqb_eq in H
             | H : String.eqb _ _ = false |- _ => apply String.eqb_neq in H
             end;
      try (intros _; by eauto);
      rewrite ?afterSend_in_flight by done;
      cbn [sending queue set_queue set_paused set_pageBusy set_sending];
      try congruence.
    destruct (queue (current w tab) !! _); cbn; congruence.
  - assert (tab0 = tab) as -> by congruence.
    rewrite maybeSendNext_run in Hs'. unfold final in Hs'; cbn [fst snd] in Hs'.
    rewrite current_holding_eq, afterSend_in_flight in Hs' by done. congruence.
Qed.

(** C1.  [maybeSendNext] hands an item to the tab only when the queue is
    non-empty and [paused], [pageBusy] and [sending] are all false; in that
    state its whole log is one handoff, of the [{text, id}] of [queue[0]],
    the queue is unchanged and [sending] is true once the handoff resolved.
    While [sending] is true it hands nothing over.  Over any trigger, a
    handoff to a tab happens only while its [sending] is false and is of the
    head of its queue, and [sending], once true, is cleared only by the
    'SUBMITTED' or 'ERROR' that answers the handoff: a tab never has two
    items in flight. *)
Theorem maybeSendNext_dispatches_head (tab : Z) (e : env) (w : world) :
  let s := current w tab in
  let r := maybeSendNext tab e w in
  let s' := current (final r) tab in
  (∀ t m ok, TabsSendMessage t m ok ∈ effects r →
     paused s = false ∧ pageBusy s = false ∧ sending s = false ∧ t = tab ∧
     ∃ next rest, queue s = next :: rest ∧ m = SEND_TEXT (text next) (id next)) ∧
  (∀ next rest,
     queue s = next :: rest → paused s = false → pageBusy s = false →
     sending s = false →
     let m := SEND_TEXT (text next) (id next) in
     effects r = [TabsSendMessage tab m (tabsReachable e m)] ∧
     queue s' = next :: rest ∧
     (tabsReachable e m = true → sending s' = true)) ∧
  (sending s = true → effects r = [] ∧ s' = s) ∧
  (∀ t txt i ok,
     TabsSendMessage tab (SEND_TEXT txt i) ok ∈ effects (step t e w) →
     sending s = false ∧
     (∃ rest, queue (current (final (step t e w)) tab) = Item i txt :: rest) ∧
     sending (current (final (step t e w)) tab) = ok) ∧
  (∀ t,
     sending s = true → sending (current (final (step t e w)) tab) = false →
     target t = Some tab ∧ (kind t = "SUBMITTED" ∨ kind t = "ERROR")).
Proof.
  intros s r s'.
  destruct (maybeSendNext_spec tab e w) as (Honly&Hhead&Hbusy).
  split_and!; [exact Honly|exact Hhead|exact Hbusy| |].
  - intros t txt i ok. apply handoff_in_step.
  - intros t. apply sending_cleared_by_outcome.
Qed.

(** * The theorems at sample inputs *)

Example twoQueued_is :
  current twoQueued 7 =
  Ctx [Item idA (lit "a"); Item idB (lit "b")] false false true.
Proof. vm_compute. reflexivity. Qed.

(** Section 8, scenario A: the first of two enqueued items is dispatched at
    once and both stay queued. *)
Example scenario_A :
  filter (λ x, isSendText x = true)
    (run [(enqueue "a", calm); (enqueue " b ", later)] blank).2 =
  [TabsSendMessage 7 (SEND_TEXT (lit "a") idA) true].
Proof. vm_compute. reflexivity. Qed.

(** Scenarios B and C: busy, then submitted, then idle again. *)
Example scenario_B_C :
  let busy_ b := Incoming (Message "PAGE_STATE" None (JBool b) JUndefined JUndefined JUndefined) (Some 7) in
  let submitted := Incoming (msgOf "SUBMITTED" JUndefined (JString idA)) (Some 7) in
  let rB := run [(busy_ true, calm); (submitted, calm)] twoQueued in
  let rC := run [(busy_ false, calm)] rB.1 in
  current rB.1 7 = Ctx [Item idB (lit "b")] false true false ∧
  filter (λ x, isSendText x = true) rB.2 = [] ∧
  current rC.1 7 = Ctx [Item idB (lit "b")] false false true ∧
  filter (λ x, isSendText x = true) rC.2 =
    [TabsSendMessage 7 (SEND_TEXT (lit "b") idB) true].
Proof. vm_compute. done. Qed.

(** Scenario D: nothing is dispatched while paused; 'RESUME' dispatches. *)
Example scenario_D :
  let plain ty := Incoming (msgOf ty JUndefined JUndefined) (Some 7) in
  let r := run [(plain "PAUSE", calm); (enqueue "x", calm)] blank in
  let r' := run [(plain "RESUME", calm)] r.1 in
  filter (λ x, isSendText x = true) r.2 = [] ∧
  filter (λ x, isSendText x = true) r'.2 =
    [TabsSendMessage 7 (SEND_TEXT (lit "x") idA) true] ∧
  current r'.1 7 = Ctx [Item idA (lit "x")] false false true.
Proof. vm_compute. done. Qed.

(** Scenario E: an 'ERROR' keeps the item and arms the timer, whose firing
    hands the item over again. *)
Example scenario_E :
  let failed := Incoming (Message "ERROR" None JUndefined JUndefined JUndefined (JString (lit "boom"))) (Some 7) in
  let r := run [(failed, calm)] twoQueued in
  let r' := run [(TimerFired 7, calm)] r.1 in
  current r.1 7 = Ctx [Item idA (lit "a"); Item idB (lit "b")] false false false ∧
  filter (λ x, isSetTimeout x = true) r.2 = [SetTimeout 7 400] ∧
  r'.2 = [TabsSendMessage 7 (SEND_TEXT (lit "a") idA) true].
Proof. vm_compute. done. Qed.

Lemma submitted_reconciles_head_witness :
  let msg := msgOf "SUBMITTED" JUndefined (JString idA) in
  let r := onMessage msg (Some 7) calm twoQueued in
  type msg = "SUBMITTED" ∧ resolveTab (Some 7) msg = Some 7 ∧ 7 ≠ 0 ∧
  sending (current (final r) 7) = false ∧
  queue (current (final r) 7) = [Item idB (lit "b")].
Proof.
  cbv zeta. split_and!; [reflexivity|reflexivity|lia| |vm_compute; reflexivity].
  apply (submitted_reconciles_head (msgOf "SUBMITTED" JUndefined (JString idA))
           (Some 7) 7 calm twoQueued); [reflexivity|reflexivity|lia].
Defined.

Lemma dispatch_failure_keeps_queue_witness :
  let msg := Message "ERROR" None JUndefined JUndefined JUndefined (JString (lit "boom")) in
  let r := onMessage msg (Some 7) calm twoQueued in
  type msg = "ERROR" ∧ resolveTab (Some 7) msg = Some 7 ∧ 7 ≠ 0 ∧
  queue (current (final (maybeSendNext 7 gone twoQueued)) 7) = queue (current twoQueued 7) ∧
  queue (current (final r) 7) = [Item idA (lit "a"); Item idB (lit "b")].
Proof.
  cbv zeta. split_and!; [reflexivity|reflexivity|lia| |vm_compute; reflexivity].
  apply (dispatch_failure_keeps_queue
           (Message "ERROR" None JUndefined JUndefined JUndefined (JString (lit "boom")))
           (Some 7) 7 gone twoQueued); [reflexivity|reflexivity|lia].
Defined.

Lemma page_state_dispatches_on_idle_edge_witness :
  let msg := Message "PAGE_STATE" None (JBool true) JUndefined JUndefined JUndefined in
  let r := onMessage msg (Some 7) calm twoQueued in
  type msg = "PAGE_STATE" ∧ resolveTab (Some 7) msg = Some 7 ∧ 7 ≠ 0 ∧
  pageBusy (current (final r) 7) = true ∧ effects r = [].
Proof.
  cbv zeta. split_and!; [reflexivity|reflexivity|lia| |vm_compute; reflexivity].
  apply (page_state_dispatches_on_idle_edge
           (Message "PAGE_STATE" None (JBool true) JUndefined JUndefined JUndefined)
           (Some 7) 7 calm twoQueued); [reflexivity|reflexivity|lia].
Defined.

Lemma remove_always_acknowledges_ok_witness :
  let msg := msgOf "QUEUE_REMOVE" JUndefined (JString idB) in
  let r := onMessage msg (Some 7) calm twoQueued in
  type msg = "QUEUE_REMOVE" ∧ resolveTab (Some 7) msg = Some 7 ∧ 7 ≠ 0 ∧
  effects r = publish 7 calm (current (final r) 7) ++ [SendResponse ROk] ∧
  queue (current (final r) 7) = [Item idA (lit "a")].
Proof.
  cbv zeta. split_and!; [reflexivity|reflexivity|lia| |vm_compute; reflexivity].
  apply (remove_always_acknowledges_ok (msgOf "QUEUE_REMOVE" JUndefined (JString idB))
           (Some 7) 7 calm twoQueued); [reflexivity|reflexivity|lia].
Defined.

Lemma edit_replaces_text_in_place_witness :
  let msg := msgOf "QUEUE_UPDATE" (JString (lit " c  ")) (JString idB) in
  let r := onMessage msg (Some 7) calm twoQueued in
  type msg = "QUEUE_UPDATE" ∧ resolveTab (Some 7) msg = Some 7 ∧ 7 ≠ 0 ∧
  queue (current (final r) 7) = [Item idA (lit "a"); Item idB (lit "c")] ∧
  ∃ n old, queue (current twoQueued 7) !! n = Some old ∧
           queue (current (final r) 7) = <[n := Item idB (lit "c")]> (queue (current twoQueued 7)).
Proof.
  cbv zeta. split_and!; [reflexivity|reflexivity|lia|vm_compute; reflexivity|].
  destruct (edit_replaces_text_in_place
              (msgOf "QUEUE_UPDATE" (JString (lit " c  ")) (JString idB))
              (Some 7) 7 calm twoQueued eq_refl eq_refl ltac:(lia)) as [Hfound _].
  destruct Hfound as (n&old&Hn&_&_&Hq&_).
  - exists (Item idB (lit "b")). split; [|reflexivity].
    apply list_elem_of_In. vm_compute. auto.
  - exists n, old. split; [exact Hn|exact Hq].
Defined.

Lemma enqueue_never_rejects_witness :
  let msg := msgOf "QUEUE_ADD" (JString (lit "   ")) JUndefined in
  let r := onMessage msg (Some 7) gone twoQueued in
  type msg = "QUEUE_ADD" ∧ resolveTab (Some 7) msg = Some 7 ∧ 7 ≠ 0 ∧
  queue (current (final r) 7) =
    [Item idA (lit "a"); Item idB (lit "b"); Item (lit "0010203040506070") []] ∧
  (randomId gone 8 ∉ id <$> queue (current twoQueued 7)) ∧
  NoDup (id <$> queue (current (final r) 7)).
Proof.
  cbv zeta.
  destruct (enqueue_never_rejects
              (msgOf "QUEUE_ADD" (JString (lit "   ")) JUndefined) (Some 7) 7 gone
              twoQueued eq_refl eq_refl ltac:(lia)) as (_&_&_&_&_&_&Hfresh).
  destruct (Hfresh [(enqueue "a", calm); (enqueue " b ", later)] blank eq_refl)
    as [Hnew Hnd].
  { intros Hin%list_elem_of_In. vm_compute in Hin.
    destruct Hin as [H|[H|[]]]; discriminate H. }
  { intros it Hin. by apply not_elem_of_nil in Hin. }
  split_and!; [reflexivity|reflexivity|lia|vm_compute; reflexivity|exact Hnew|].
  apply Hnd. apply NoDup_ListNoDup. rewrite twoQueued_is. vm_compute.
  constructor; [|constructor; [|constructor]].
  - intros [H|[]]. discriminate H.
  - intros [].
Defined.

Lemma trigger_keeps_in_flight_item_queued_witness :
  let t := Incoming (msgOf "QUEUE_REMOVE" JUndefined (JString idA)) (Some 7) in
  let s' := current (final (step t calm twoQueued)) 7 in
  inFlightQueued (current twoQueued 7) ∧
  inFlightQueued s' ∧ sending s' = true ∧ queue s' = [Item idB (lit "b")].
Proof.
  cbv zeta.
  assert (H0 : inFlightQueued (current twoQueued 7)) by (intros _; vm_compute; done).
  split_and!; [exact H0| |vm_compute; reflexivity..].
  apply (trigger_keeps_in_flight_item_queued
           (Incoming (msgOf "QUEUE_REMOVE" JUndefined (JString idA)) (Some 7))
           calm twoQueued 7 H0).
  intros (_&_&_&[Hty|[_ Hall]]); [discriminate Hty|].
  rewrite twoQueued_is in Hall. cbn [queue] in Hall.
  apply Forall_cons in Hall as [_ Hall]. apply Forall_cons in Hall as [Hb _].
  vm_compute in Hb. discriminate Hb.
Defined.

(** * More of bg.js *)

(** ** Identifiers *)

Lemma hexDigit_isHexDigit d : (d < 16)%N → isHexDigit (hexDigit d) = true.
Proof.
  intros Hd. unfold hexDigit, isHexDigit.
  destruct (N.ltb_spec d 10).
  - replace ((48 <=? 48 + d) && (48 + d <=? 57))%N with true; [done|].
    symmetry. apply andb_true_iff. split; apply N.leb_le; lia.
  - replace ((97 <=? 87 + d) && (87 + d <=? 102))%N with true; [by rewrite orb_true_r|].
    symmetry. apply andb_true_iff. split; apply N.leb_le; lia.
Qed.

Lemma hex_join_digits (a : list N) :
  Forall (λ c, isHexDigit c = true) (mjoin (toHex2 <$> a)).
Proof.
  induction a as [|x a IH]; [constructor|].
  change (Forall (λ c, isHexDigit c = true) (toHex2 x ++ mjoin (toHex2 <$> a))).
  apply Forall_app. split; [|done].
  unfold toHex2. repeat constructor; apply hexDigit_isHexDigit;
    by apply N.mod_upper_bound.
Qed.

(** X1.  [randomId(len)] is a string of exactly [2 * len] lower-case
    hexadecimal digits, whatever the random source returns, and two calls
    give the same string exactly when the bytes drawn were the same. *)
Theorem randomId_is_hex_of_the_draw (e e' : env) (len : nat) :
  length (randomId e len) = (2 * len)%nat ∧
  Forall (λ c, isHexDigit c = true) (randomId e len) ∧
  (randomId e len = randomId e' len ↔
   getRandomValues e (replicate len 0%N) = getRandomValues e' (replicate len 0%N)).
Proof.
  split_and!.
  - apply randomId_length.
  - apply hex_join_digits.
  - split; [apply randomId_inj|]. unfold randomId. by intros ->.
Qed.

(** ** What a step logs *)

Lemma durable_afterSend e s : durable (afterSend e s) = durable s.
Proof. unfold afterSend. by destruct (dispatched s). Qed.

Ltac open_log H :=
  repeat first
    [ apply elem_of_app in H as [H|H]
    | apply elem_of_cons in H as [->|H]
    | by apply not_elem_of_nil in H ].

Lemma sendLog_describes tab e s x :
  x ∈ sendLog tab e s → describes tab (afterSend e s) x.
Proof.
  intros (next&rest&Hq&Hp&Hb&Hs&->&->)%sendLog_elem.
  cbn. rewrite Hq. destruct next. done.
Qed.

Lemma describes_afterSend tab e s x :
  (∀ txt i ok, x ≠ TabsSendMessage tab (SEND_TEXT txt i) ok) →
  describes tab s x → describes tab (afterSend e s) x.
Proof.
  intros Hx. unfold describes.
  rewrite durable_afterSend, queue_afterSend, paused_afterSend.
  destruct x as [| t [|] | | |]; try done.
  intros (->&_). by destruct (Hx t0 i delivered).
Qed.

(** Every effect of a handler is about the tab it handles and tells the
    record the handler leaves. *)
Lemma handle_log tab msg e w x :
  x ∈ effects (handle tab msg e w) →
  describes tab (current (final (handle tab msg e w)) tab) x.
Proof.
  handler_cases; cbv zeta; branch_cases;
    unfold final, effects, skip, mret, M_ret, publish; cbn [fst snd];
    rewrite ?current_holding_eq; intros Hin; open_log Hin;
    try (by apply sendLog_describes);
    try (apply describes_afterSend; [done|]); by cbn.
Qed.

Lemma onMessage_log msg sender e w x :
  x ∈ effects (onMessage msg sender e w) →
  ∃ tab, resolveTab sender msg = Some tab ∧
         describes tab (current (final (onMessage msg sender e w)) tab) x.
Proof.
  destruct (onMessage_ignored_or_handled msg sender e w)
    as [[-> _]|(tab&Hres&_&->)]; [by intros ?%not_elem_of_nil|].
  intros Hin. exists tab. split; [done|]. by apply handle_log.
Qed.

Lemma step_log t e w x :
  x ∈ effects (step t e w) →
  ∃ tab, target t = Some tab ∧
         describes tab (current (final (step t e w)) tab) x.
Proof.
  destruct t as [msg sender|tab]; cbn [step target].
  - apply onMessage_log.
  - rewrite maybeSendNext_run. unfold final, effects; cbn [fst snd].
    intros Hin. exists tab. split; [done|].
    rewrite current_holding_eq. by apply sendLog_describes.
Qed.

Lemma describes_touches tab s x : touches tab x → ∀ tab', describes tab' s x → tab' = tab.
Proof.
  destruct x as [k v|t [q p|txt i] ok| | |t d]; cbn; try done.
  - intros -> tab' [Hk _]. by apply keyFor_inj.
  - intros -> tab' (->&_). done.
  - intros -> tab' (->&_). done.
  - intros -> tab' (->&_). done.
Qed.

Lemma handle_stores_frame tab0 tab msg e w :
  tab ≠ tab0 →
  storage (final (handle tab0 msg e w)) !! keyFor tab = storage w !! keyFor tab ∧
  tabState (final (handle tab0 msg e w)) !! tab = tabState w !! tab.
Proof.
  intros Hne.
  assert (keyFor tab0 ≠ keyFor tab) by (intros ?%keyFor_inj; congruence).
  handler_cases; cbv zeta; branch_cases;
    unfold final, skip, mret, M_ret, holding, stored; cbn [fst snd storage tabState];
    rewrite ?lookup_insert_ne by done; done.
Qed.

Lemma other_tabs_frame_aux t e w tab :
  target t ≠ Some tab →
  storage (final (step t e w)) !! keyFor tab = storage w !! keyFor tab ∧
  current (final (step t e w)) tab = current w tab.
Proof.
  intros Ht. split; [|by apply step_frame].
  destruct t as [msg sender|tab0]; cbn [step target] in *.
  - destruct (onMessage_ignored_or_handled msg sender e w)
      as [[-> _]|(tab0&Hres&_&->)]; [done|].
    apply handle_stores_frame. congruence.
  - by rewrite maybeSendNext_run.
Qed.

(** X2.  A trigger that is not for a tab leaves that tab alone: its record,
    its entry in [tabState] and its stored record are as before, and no
    effect of the step writes its key, sends to it or arms a timer for
    it. *)
Theorem other_tabs_are_untouched (t : trigger) (e : env) (w : world) (tab : Z) :
  target t ≠ Some tab →
  let r := step t e w in
  current (final r) tab = current w tab ∧
  tabState (final r) !! tab = tabState w !! tab ∧
  storage (final r) !! keyFor tab = storage w !! keyFor tab ∧
  ∀ x, x ∈ effects r → ¬ touches tab x.
Proof.
  intros Ht r. subst r. split; [by apply step_frame|].
  assert (Hlog : ∀ x, x ∈ effects (step t e w) → ¬ touches tab x).
  { intros x (tab0&Ht0&Hd)%step_log Hx.
    apply (describes_touches _ _ _ Hx) in Hd. congruence. }
  destruct t as [msg sender|tab0]; cbn [step target] in *.
  - destruct (onMessage_ignored_or_handled msg sender e w)
      as [[Hr _]|(tab0&Hres&_&Hr)]; rewrite Hr in *; [done|].
    destruct (handle_stores_frame tab0 tab msg e w) as [Hst Hts]; [congruence|].
    done.
  - split_and!; [| |done]; rewrite maybeSendNext_run; unfold final, holding;
      cbn [fst snd tabState storage]; [|done].
    apply lookup_insert_ne. congruence.
Qed.

Lemma other_tabs_are_untouched_witness :
  let t := Incoming (msgOf "QUEUE_CLEAR" JUndefined JUndefined) (Some 8) in
  target t ≠ Some 7 ∧ current (final (step t calm twoQueued)) 7 = current twoQueued 7.
Proof.
  cbv zeta.
  assert (H : target (Incoming (msgOf "QUEUE_CLEAR" JUndefined JUndefined) (Some 8)) ≠ Some 7)
    by (cbn; congruence).
  split; [exact H|].
  apply (other_tabs_are_untouched _ calm twoQueued 7 H).
Defined.

Lemma handle_persisted tab msg e w k v :
  StorageSet k v ∈ effects (handle tab msg e w) →
  storage (final (handle tab msg e w)) !! k = Some v.
Proof.
  handler_cases; cbv zeta; branch_cases;
    unfold final, effects, skip, mret, M_ret, publish; cbn [fst snd];
    intros Hin; split_log Hin;
    try (apply sendLog_elem in Hin as (?&?&_&_&_&_&?&_); discriminate).
  all: injection Hin as -> ->; unfold holding, stored; cbn [storage];
    apply lookup_insert_eq.
Qed.

(** X3.  What a step stores and what it broadcasts is the state it leaves:
    every [chrome.storage.local.set] of a step writes, under the key of the
    tab, the queue and [paused] the record of the tab ends the step with,
    and storage ends the step holding it; every 'QUEUE_UPDATED' sent carries
    that same queue and [paused]. *)
Theorem writes_and_broadcasts_carry_final_state
    (t : trigger) (e : env) (w : world) :
  let r := step t e w in
  (∀ k v, StorageSet k v ∈ effects r →
     ∃ tab, target t = Some tab ∧ k = keyFor tab ∧
            v = Saved (queue (current (final r) tab)) (paused (current (final r) tab)) ∧
            storage (final r) !! k = Some v) ∧
  (∀ tab q p ok, TabsSendMessage tab (QUEUE_UPDATED q p) ok ∈ effects r →
     target t = Some tab ∧
     q = queue (current (final r) tab) ∧ p = paused (current (final r) tab)).
Proof.
  intros r. subst r. split.
  - intros k v Hin. destruct (step_log _ _ _ _ Hin) as (tab&Ht&Hk&Hv).
    exists tab. split_and!; [done..|].
    destruct t as [msg sender|tab0]; cbn [step] in *.
    + destruct (onMessage_ignored_or_handled msg sender e w)
        as [[Hr _]|(tab0&_&_&Hr)]; rewrite Hr in *;
        [by apply not_elem_of_nil in Hin|].
      by apply handle_persisted.
    + rewrite maybeSendNext_run in Hin. unfold effects in Hin; cbn [snd] in Hin.
      apply sendLog_elem in Hin as (?&?&_&_&_&_&?&_). discriminate.
  - intros tab q p ok Hin. destruct (step_log _ _ _ _ Hin) as (tab'&Ht&->&Hq&Hp).
    done.
Qed.

(** ** The guards of a dispatch *)

Ltac name_types :=
  repeat match goal with
         | H : String.eqb _ _ = true |- _ => apply String.eqb_eq in H
         | H : String.eqb _ _ = false |- _ => apply String.eqb_neq in H
         end.

(** Which triggers write [paused] and [pageBusy]. *)
Lemma step_flags t e w tab :
  let s := current w tab in
  let s' := current (final (step t e w)) tab in
  (kind t ≠ "PAUSE" → kind t ≠ "RESUME" → paused s' = paused s) ∧
  (kind t = "PAUSE" → paused s = true → paused s' = true) ∧
  (kind t ≠ "PAGE_STATE" → pageBusy s' = pageBusy s).
Proof.
  intros s s'. subst s s'.
  destruct (decide (target t = Some tab)) as [Ht|Ht]; [|by rewrite step_frame].
  destruct t as [msg sender|tab0]; cbn [step target kind] in *.
  - destruct (onMessage_ignored_or_handled msg sender e w)
      as [[-> _]|(tab0&Hres&_&->)]; [done|].
    assert (tab0 = tab) as -> by congruence.
    handler_cases; cbv zeta; branch_cases;
      unfold final, skip, mret, M_ret; cbn [fst snd];
      rewrite ?current_holding_eq, ?paused_afterSend, ?pageBusy_afterSend;
      name_types;
      cbn [paused pageBusy set_queue set_paused set_pageBusy set_sending];
      try done.
    destruct (queue (current w tab) !! _); done.
  - assert (tab0 = tab) as -> by congruence.
    rewrite maybeSendNext_run. unfold final; cbn [fst snd].
    by rewrite current_holding_eq, paused_afterSend, pageBusy_afterSend.
Qed.

(** X4.  Nothing is handed to a tab that is paused or busy.  A handoff in
    the log of a step means the tab ends the step unpaused and idle; a tab
    that is paused stays paused and gets no handoff from any trigger but
    'RESUME', and a tab that is busy stays busy and gets none from any
    trigger but 'PAGE_STATE'. *)
Theorem paused_or_busy_tab_gets_no_handoff
    (t : trigger) (e : env) (w : world) (tab : Z) :
  let s := current w tab in
  let r := step t e w in
  let s' := current (final r) tab in
  (∀ txt i ok, TabsSendMessage tab (SEND_TEXT txt i) ok ∈ effects r →
     paused s' = false ∧ pageBusy s' = false) ∧
  (paused s = true → kind t ≠ "RESUME" →
     paused s' = true ∧
     ∀ txt i ok, TabsSendMessage tab (SEND_TEXT txt i) ok ∉ effects r) ∧
  (pageBusy s = true → kind t ≠ "PAGE_STATE" →
     pageBusy s' = true ∧
     ∀ txt i ok, TabsSendMessage tab (SEND_TEXT txt i) ok ∉ effects r).
Proof.
  intros s r s'.
  assert (Hsent : ∀ txt i ok, TabsSendMessage tab (SEND_TEXT txt i) ok ∈ effects r →
                              paused s' = false ∧ pageBusy s' = false).
  { intros txt i ok (tab'&_&<-&_&_&?&?)%step_log. done. }
  destruct (step_flags t e w tab) as (Hkeep&Hpause&Hbusy).
  split_and!; [exact Hsent| |].
  - intros Hp Hk.
    assert (Hp' : paused s' = true).
    { destruct (decide (kind t = "PAUSE")) as [Hk'|Hk']; [by apply Hpause|].
      unfold s', r. rewrite Hkeep by done. exact Hp. }
    split; [done|]. intros txt i ok [? _]%Hsent. congruence.
  - intros Hb Hk.
    assert (Hb' : pageBusy s' = true) by (unfold s', r; by rewrite Hbusy).
    split; [done|]. intros txt i ok [_ ?]%Hsent. congruence.
Qed.

(** ** Storage follows the records *)

Lemma durable_fresh v : durable (fresh (Some v)) = v.
Proof. by destruct v. Qed.

Lemma step_keeps_synced t e w tab :
  synced w tab → synced (final (step t e w)) tab.
Proof.
  unfold synced. intros Hs.
  destruct (decide (target t = Some tab)) as [Ht|Ht].
  2:{ destruct (other_tabs_frame_aux t e w tab Ht) as (-> & ->). done. }
  destruct t as [msg sender|tab0]; cbn [step target kind] in *.
  - destruct (onMessage_ignored_or_handled msg sender e w)
      as [[-> _]|(tab0&Hres&_&->)]; [done|].
    assert (tab0 = tab) as -> by congruence. revert Hs.
    handler_cases; cbv zeta; branch_cases;
      unfold final, skip, mret, M_ret; cbn [fst snd];
      rewrite ?current_holding_eq, ?durable_afterSend;
      unfold holding, stored; cbn [storage];
      rewrite ?lookup_insert_eq, ?durable_fresh; try done.
  - assert (tab0 = tab) as -> by congruence.
    rewrite maybeSendNext_run. unfold final; cbn [fst snd].
    by rewrite current_holding_eq, durable_afterSend.
Qed.

Lemma run_keeps_synced ts w tab : synced w tab → synced (run ts w).1 tab.
Proof.
  revert w. induction ts as [|[t e] ts IH]; intros w Hs; [done|].
  rewrite run_cons. cbn [fst snd]. by apply IH, step_keeps_synced.
Qed.

(** X5.  Storage never lags behind.  If storage agrees with the record of a
    tab on the queue and on [paused], it still does after any run of
    triggers; so a script that starts again at any point between two
    triggers rebuilds the same queue and the same [paused], with [pageBusy]
    and [sending] false. *)
Theorem restart_loses_nothing_durable
    (ts : list (trigger * env)) (w : world) (tab : Z) :
  synced w tab →
  let w' := (run ts w).1 in
  let s0 := current (restart w') tab in
  synced w' tab ∧
  queue s0 = queue (current w' tab) ∧ paused s0 = paused (current w' tab) ∧
  pageBusy s0 = false ∧ sending s0 = false.
Proof.
  intros Hs w' s0. pose proof (run_keeps_synced ts w tab Hs) as Hs'.
  split; [exact Hs'|]. fold w' in Hs'. unfold synced in Hs'.
  assert (s0 = fresh (storage w' !! keyFor tab)) as ->.
  { unfold s0, current, restart; cbn [tabState storage]. by rewrite lookup_empty. }
  injection Hs' as Hq Hp. done.
Qed.

Lemma restart_loses_nothing_durable_witness :
  let ts := [(enqueue "a", calm); (enqueue " b ", later);
             (Incoming (msgOf "PAUSE" JUndefined JUndefined) (Some 7), calm)] in
  let w' := (run ts blank).1 in
  synced blank 7 ∧
  queue (current (restart w') 7) = [Item idA (lit "a"); Item idB (lit "b")] ∧
  paused (current (restart w') 7) = true ∧
  queue (current (restart w') 7) = queue (current w' 7).
Proof.
  cbv zeta.
  assert (H : synced blank 7) by reflexivity.
  split_and!; [exact H|vm_compute; reflexivity|vm_compute; reflexivity|].
  apply (restart_loses_nothing_durable _ blank 7 H).
Defined.

(** ** Answers *)

Lemma publish_no_response tab e s :
  filter (λ x, isResponse x = true) (publish tab e s) = [].
Proof. reflexivity. Qed.

Lemma responses_filter (l : list effect) :
  filter (λ x, isResponse x = true) l = List.filter isResponse l.
Proof.
  induction l as [|x l IH]; [done|].
  rewrite filter_cons. cbn [List.filter]. rewrite IH.
  destruct (isResponse x); by case_decide.
Qed.

Ltac in_types H :=
  repeat (apply elem_of_cons in H as [H|H]; [congruence|]);
  by apply not_elem_of_nil in H.

(** X6.  A step calls [sendResponse] at most once.  It calls it exactly once
    for a message of a tab (other than tab 0) whose type is one of 'HELLO',
    'QUEUE_ADD', 'QUEUE_REMOVE', 'QUEUE_UPDATE', 'QUEUE_CLEAR', 'QUEUE_GET',
    'PAUSE' and 'RESUME', and never for anything else: 'PAGE_STATE',
    'SUBMITTED', 'ERROR', a type the switch does not know, or the timer. *)
Theorem one_answer_per_controller_call (t : trigger) (e : env) (w : world) :
  let n := length (filter (λ x, isResponse x = true) (effects (step t e w))) in
  (n ≤ 1)%nat ∧
  (∀ tab, target t = Some tab → tab ≠ 0 → kind t ∈ answeredTypes → n = 1%nat) ∧
  (kind t ∉ answeredTypes → n = 0%nat).
Proof.
  cbv zeta. destruct t as [msg sender|tab0]; cbn [step target kind].
  - destruct (onMessage_ignored_or_handled msg sender e w)
      as [[-> Hwhy]|(tab0&Hres&_&->)].
    { cbn. split_and!; [lia| |done]. intros tab Ht Hnz. destruct Hwhy; congruence. }
    handler_cases; cbv zeta; branch_cases;
      unfold final, effects, skip, mret, M_ret; cbn [fst snd];
      rewrite ?filter_app, ?sendLog_no_response, ?publish_no_response;
      rewrite ?responses_filter;
      name_types; cbn; (split_and!; [lia| |]); try done.
    all: try (intros Hn; exfalso; apply Hn;
              match goal with H : type _ = _ |- _ => rewrite H end;
              apply list_elem_of_In; cbn; tauto).
    all: intros tab _ _ Hin; in_types Hin.
  - rewrite maybeSendNext_run. unfold effects; cbn [snd].
    rewrite sendLog_no_response. cbn. split_and!; [lia| |done].
    intros tab _ _ Hin. in_types Hin.
Qed.

(** ** Reading the state *)

Lemma handle_HELLO tab msg : type msg = "HELLO" → handle tab msg = on_HELLO tab msg.
Proof. unfold handle. by intros ->. Qed.

Lemma handle_QUEUE_GET tab msg :
  type msg = "QUEUE_GET" → handle tab msg = on_QUEUE_GET tab msg.
Proof. unfold handle. by intros ->. Qed.

(** X7.  'HELLO' and 'QUEUE_GET' only read.  No record and nothing in
    storage changes; 'QUEUE_GET' answers with the queue and [paused] of the
    tab, 'HELLO' broadcasts them to the tab and answers [{ok: true}]. *)
Theorem hello_and_get_only_read
    (msg : message) (sender : option Z) (tab : Z) (e : env) (w : world) :
  resolveTab sender msg = Some tab → tab ≠ 0 →
  type msg = "HELLO" ∨ type msg = "QUEUE_GET" →
  let s := current w tab in
  let r := onMessage msg sender e w in
  (∀ tab', current (final r) tab' = current w tab') ∧
  storage (final r) = storage w ∧
  (type msg = "QUEUE_GET" →
     effects r = [SendResponse (RState (queue s) (paused s))]) ∧
  (type msg = "HELLO" →
     effects r =
       [TabsSendMessage tab (QUEUE_UPDATED (queue s) (paused s))
          (tabsReachable e (QUEUE_UPDATED (queue s) (paused s)));
        SendResponse ROk]).
Proof.
  intros Htab Hnz Hty s r. subst r.
  rewrite (onMessage_routed _ _ _ Htab Hnz).
  destruct Hty as [Hty|Hty].
  - rewrite (handle_HELLO _ _ Hty), on_HELLO_run.
    unfold final, effects; cbn [fst snd].
    split_and!; [intros tab'; apply current_holding_self|done| |done].
    rewrite Hty. discriminate.
  - rewrite (handle_QUEUE_GET _ _ Hty), on_QUEUE_GET_run.
    unfold final, effects; cbn [fst snd].
    split_and!; [intros tab'; apply current_holding_self|done|done|].
    rewrite Hty. discriminate.
Qed.

Lemma hello_and_get_only_read_witness :
  let msg := msgOf "QUEUE_GET" JUndefined JUndefined in
  let r := onMessage msg (Some 7) calm twoQueued in
  resolveTab (Some 7) msg = Some 7 ∧ 7 ≠ 0 ∧ type msg = "QUEUE_GET" ∧
  storage (final r) = storage twoQueued ∧
  effects r = [SendResponse (RState [Item idA (lit "a"); Item idB (lit "b")] false)].
Proof.
  cbv zeta. split_and!; [reflexivity|lia|reflexivity| |vm_compute; reflexivity].
  apply (hello_and_get_only_read (msgOf "QUEUE_GET" JUndefined JUndefined)
           (Some 7) 7 calm twoQueued); [reflexivity|lia|by right].
Defined.

(** X8.  [getState] never writes storage and logs nothing; it leaves every
    record as it was and, called again, returns the same record without
    changing anything.  For a tab that is neither in [tabState] nor in
    storage the record is the empty, unpaused, idle one. *)
Theorem getState_is_lazy_and_stable (tab : Z) (e e' : env) (w : world) :
  let r := getState tab e w in
  effects r = [] ∧ storage (final r) = storage w ∧
  result r = current w tab ∧
  (∀ tab', current (final r) tab' = current w tab') ∧
  getState tab e' (final r) = (result r, final r, []) ∧
  (tabState w !! tab = None → storage w !! keyFor tab = None →
     result r = Ctx [] false false false).
Proof.
  cbv zeta. rewrite getState_run. unfold final, effects, result; cbn [fst snd].
  split_and!; [done..|intros tab'; apply current_holding_self|apply getState_hit|].
  intros Hts Hst. unfold current. by rewrite Hts, Hst.
Qed.

(** ** Messages the listener drops *)

(** X9.  A message that carries no tab id, or the tab id 0, is dropped
    whatever its type ('PING' included, for which the switch has no case),
    and so is a message of a type the switch does not know: nothing changes,
    nothing is logged and no answer is given. *)
Theorem unusable_messages_are_dropped
    (msg : message) (sender : option Z) (e : env) (w : world) :
  resolveTab sender msg = None ∨ resolveTab sender msg = Some 0 ∨
  type msg ∉ knownTypes →
  onMessage msg sender e w = (tt, w, []).
Proof.
  assert (Hunknown : ∀ tab, type msg ∉ knownTypes → handle tab msg e w = (tt, w, [])).
  { intros tab Hty. unfold handle.
    repeat match goal with
           | |- context [String.eqb (type msg) ?l] =>
               destruct (String.eqb_spec (type msg) l) as [Heq|_];
               [exfalso; apply Hty; rewrite Heq; apply list_elem_of_In; cbn; tauto|]
           end.
    reflexivity. }
  intros Hwhy. unfold onMessage.
  destruct (resolveTab sender msg) as [tab|] eqn:Hres; [|done].
  destruct (Z.eqb_spec tab 0) as [->|Hnz]; cbn [andb].
  - destruct (String.eqb_spec (type msg) "PING") as [Hp|Hp]; cbn [negb]; [|done].
    apply Hunknown. rewrite Hp. intros Hin. in_types Hin.
  - destruct Hwhy as [?|[?|?]]; [congruence..|]. by apply Hunknown.
Qed.

Lemma unusable_messages_are_dropped_witness :
  let msg := msgOf "QUEUE_ADD" (JString (lit "lost")) JUndefined in
  resolveTab None msg = None ∧
  onMessage msg None calm twoQueued = (tt, twoQueued, []).
Proof.
  cbv zeta. split; [reflexivity|].
  apply (unusable_messages_are_dropped
           (msgOf "QUEUE_ADD" (JString (lit "lost")) JUndefined) None calm twoQueued).
  left. reflexivity.
Defined.

(** ** Cancelling the item in flight *)

Lemma headId_filter_ne (q : list item) (v : jsval) :
  strictEq (headId (filter (λ it, negb (strictEq (JString (id it)) v)) q)) v = true →
  v = JUndefined.
Proof.
  destruct (filter _ q) as [|it q'] eqn:Hf; cbn [headId].
  - by destruct v.
  - intros Heq. assert (Hin : it ∈ filter (λ it, negb (strictEq (JString (id it)) v)) q)
      by (rewrite Hf; left).
    apply list_elem_of_filter in Hin as [Hkeep _].
    apply Is_true_true, negb_true_iff in Hkeep. congruence.
Qed.

(** X10.  Removing an item and then receiving 'SUBMITTED' for it (the item
    was in flight when it was removed) drops nothing else: the queue is the
    old queue without the items of that id, and [sending] is false.  The
    same holds after 'QUEUE_CLEAR': the queue stays empty. *)
Theorem submitted_after_removal_drops_nothing
    (m1 m2 : message) (s1 s2 : option Z) (e1 e2 : env) (i : jsstring)
    (tab : Z) (w : world) :
  resolveTab s1 m1 = Some tab → resolveTab s2 m2 = Some tab → tab ≠ 0 →
  type m2 = "SUBMITTED" → msg_id m2 = JString i →
  (type m1 = "QUEUE_REMOVE" ∧ msg_id m1 = JString i) ∨ type m1 = "QUEUE_CLEAR" →
  let q := queue (current w tab) in
  let w' := (run [(Incoming m1 s1, e1); (Incoming m2 s2, e2)] w).1 in
  sending (current w' tab) = false ∧
  ((type m1 = "QUEUE_REMOVE" →
      queue (current w' tab) = filter (λ it, id it ≠ i) q) ∧
   (type m1 = "QUEUE_CLEAR" → queue (current w' tab) = [])).
Proof.
  intros H1 H2 Hnz Hty2 Hid2 Hm1 q w'. subst q w'.
  cbn [run step fst snd]. unfold final; cbn [fst snd].
  rewrite (onMessage_routed _ _ _ H1 Hnz), (onMessage_routed _ _ _ H2 Hnz).
  rewrite (handle_SUBMITTED _ _ Hty2).
  destruct Hm1 as [[Hty1 Hid1]|Hty1].
  - rewrite (handle_QUEUE_REMOVE _ _ Hty1), on_QUEUE_REMOVE_run. cbn [fst snd].
    rewrite on_SUBMITTED_run, current_holding_eq. cbn [queue set_queue].
    rewrite Hid1, Hid2.
    destruct (strictEq (headId _) (JString i)) eqn:Hhead;
      [by apply headId_filter_ne in Hhead|].
    cbn [fst snd]. rewrite current_holding_eq. cbn.
    split_and!; [done| |rewrite Hty1; discriminate].
    intros _. apply list_filter_iff. intros it. cbn.
    rewrite Is_true_true, negb_true_iff, bool_decide_eq_false. done.
  - rewrite (handle_QUEUE_CLEAR _ _ Hty1), on_QUEUE_CLEAR_run. cbn [fst snd].
    rewrite on_SUBMITTED_run, current_holding_eq. cbn [queue set_queue headId].
    rewrite Hid2. cbn [strictEq fst snd]. rewrite current_holding_eq. cbn.
    split_and!; [done| |done]. rewrite Hty1. discriminate.
Qed.

Lemma submitted_after_removal_drops_nothing_witness :
  let m1 := msgOf "QUEUE_REMOVE" JUndefined (JString idA) in
  let m2 := msgOf "SUBMITTED" JUndefined (JString idA) in
  let w' := (run [(Incoming m1 (Some 7), calm); (Incoming m2 (Some 7), calm)] twoQueued).1 in
  type m1 = "QUEUE_REMOVE" ∧ type m2 = "SUBMITTED" ∧
  sending (current w' 7) = false ∧
  queue (current w' 7) = [Item idB (lit "b")].
Proof.
  cbv zeta. split_and!; [reflexivity|reflexivity| |vm_compute; reflexivity].
  apply (submitted_after_removal_drops_nothing
           (msgOf "QUEUE_REMOVE" JUndefined (JString idA))
           (msgOf "SUBMITTED" JUndefined (JString idA))
           (Some 7) (Some 7) calm calm idA 7 twoQueued);
    [reflexivity|reflexivity|lia|reflexivity|reflexivity|].
  left. split; reflexivity.
Defined.

(** ** No missed dispatch *)

Lemma afterSend_progress tab e s :
  paused s = false → pageBusy s = false → queue s ≠ [] →
  sending (afterSend e s) = true ∨
  ∃ txt i, TabsSendMessage tab (SEND_TEXT txt i) false ∈ sendLog tab e s.
Proof.
  intros Hp Hb Hq. unfold afterSend, sendLog.
  destruct (sending s) eqn:Hs.
  - left. assert (dispatched s = None) as -> by (apply dispatched_None; eauto). done.
  - destruct (queue s) as [|next rest] eqn:Hq'; [done|].
    assert (dispatched s = Some next) as -> by (apply dispatched_Some; eauto 10).
    cbn. destruct (tabsReachable e _) eqn:Hok; [by left|right].
    exists (text next), (id next). by left.
Qed.

Lemma handle_RESUME tab msg : type msg = "RESUME" → handle tab msg = on_RESUME tab msg.
Proof. unfold handle. by intros ->. Qed.

(** X11.  After 'QUEUE_ADD', 'RESUME', a 'PAGE_STATE' that ends a busy
    period, or the retry timer, a tab that is unpaused and idle and has
    items is never left waiting: either [sending] is true, or the step tried
    to hand the head over and the tab could not be reached. *)
Theorem evaluation_never_misses_the_head
    (t : trigger) (e : env) (w : world) (tab : Z) :
  target t = Some tab → tab ≠ 0 → evaluates t (current w tab) →
  let r := step t e w in
  let s' := current (final r) tab in
  paused s' = false → pageBusy s' = false → queue s' ≠ [] →
  sending s' = true ∨
  ∃ txt i, TabsSendMessage tab (SEND_TEXT txt i) false ∈ effects r.
Proof.
  intros Ht Hnz Hev r s'. subst r s'.
  destruct t as [msg sender|tab0]; cbn [step target evaluates] in *.
  - rewrite (onMessage_routed _ _ _ Ht Hnz).
    destruct Hev as [Hty|[Hty|[Hty Hprev]]].
    + rewrite (handle_QUEUE_ADD _ _ Hty), on_QUEUE_ADD_run.
      unfold final, effects; cbn [fst snd].
      rewrite current_holding_eq, paused_afterSend, pageBusy_afterSend, queue_afterSend.
      intros Hp Hb Hq.
      destruct (afterSend_progress tab e _ Hp Hb Hq) as [?|(txt&i&Hin)]; [by left|right].
      exists txt, i. rewrite !elem_of_app. eauto.
    + rewrite (handle_RESUME _ _ Hty), on_RESUME_run.
      unfold final, effects; cbn [fst snd].
      rewrite current_holding_eq, paused_afterSend, pageBusy_afterSend, queue_afterSend.
      intros Hp Hb Hq.
      destruct (afterSend_progress tab e _ Hp Hb Hq) as [?|(txt&i&Hin)]; [by left|right].
      exists txt, i. rewrite !elem_of_app. eauto.
    + rewrite (handle_PAGE_STATE _ _ Hty), on_PAGE_STATE_run. rewrite Hprev.
      destruct (ToBoolean (busy msg)) eqn:Hnow.
      * rewrite bool_decide_eq_true_2 by done. cbn [negb andb].
        unfold final, effects; cbn [fst snd].
        rewrite current_holding_eq. cbn. congruence.
      * rewrite bool_decide_eq_false_2 by done. cbn [negb andb].
        unfold final, effects; cbn [fst snd].
        rewrite current_holding_eq, paused_afterSend, pageBusy_afterSend, queue_afterSend.
        intros Hp Hb Hq.
        destruct (afterSend_progress tab e _ Hp Hb Hq) as [?|(txt&i&Hin)]; [by left|right].
        eauto.
  - assert (tab0 = tab) as -> by congruence.
    rewrite maybeSendNext_run. unfold final, effects; cbn [fst snd].
    rewrite current_holding_eq, paused_afterSend, pageBusy_afterSend, queue_afterSend.
    apply afterSend_progress.
Qed.

Lemma evaluation_never_misses_the_head_witness :
  let t := Incoming (msgOf "RESUME" JUndefined JUndefined) (Some 7) in
  let w := (run [(Incoming (msgOf "PAUSE" JUndefined JUndefined) (Some 7), calm);
                 (enqueue "x", calm)] blank).1 in
  let r := step t gone w in
  target t = Some 7 ∧ evaluates t (current w 7) ∧
  queue (current (final r) 7) ≠ [] ∧
  (sending (current (final r) 7) = true ∨
   ∃ txt i, TabsSendMessage 7 (SEND_TEXT txt i) false ∈ effects r).
Proof.
  cbv zeta. split_and!; [reflexivity|right; left; reflexivity|vm_compute; discriminate|].
  apply (evaluation_never_misses_the_head
           (Incoming (msgOf "RESUME" JUndefined JUndefined) (Some 7)) gone _ 7);
    [reflexivity|lia|right; left; reflexivity
    |vm_compute; reflexivity|vm_compute; reflexivity|vm_compute; discriminate].
Defined.

(** ** Items as the coordinator makes them *)

Lemma trimStart_fixed (s : jsstring) :
  (∀ c, head s = Some c → isWhiteSpace c = false) → trimStart s = s.
Proof. destruct s as [|c s]; [done|]. intros H. cbn. by rewrite (H c). Qed.

Lemma trimEnd_fixed (s : jsstring) :
  (∀ c, last s = Some c → isWhiteSpace c = false) → trimEnd s = s.
Proof.
  intros H. unfold trimEnd. rewrite trimStart_fixed, reverse_involutive; [done|].
  intros c. rewrite head_reverse. apply H.
Qed.

Lemma trim_idemp (s : jsstring) : trim (trim s) = trim s.
Proof.
  destruct (trim_spec s) as (_&_&_&_&_&Hhd&Hlast).
  unfold trim at 1. by rewrite trimStart_fixed, trimEnd_fixed.
Qed.

Lemma randomId_wellFormed e raw : wellFormed (Item (randomId e 8) (trim raw)).
Proof.
  split_and!; cbn [id text].
  - by rewrite randomId_length.
  - apply hex_join_digits.
  - apply trim_idemp.
Qed.

Lemma step_keeps_wellFormed t e w tab :
  Forall wellFormed (queue (current w tab)) →
  Forall wellFormed (queue (current (final (step t e w)) tab)).
Proof.
  intros Hwf.
  destruct (decide (target t = Some tab)) as [Ht|Ht]; [|by rewrite step_frame].
  destruct t as [msg sender|tab0]; cbn [step target] in *.
  - destruct (onMessage_ignored_or_handled msg sender e w)
      as [[-> _]|(tab0&Hres&_&->)]; [done|].
    assert (tab0 = tab) as -> by congruence.
    handler_cases; cbv zeta; branch_cases;
      unfold final, skip, mret, M_ret; cbn [fst snd];
      rewrite ?current_holding_eq, ?queue_afterSend;
      cbn [queue set_queue set_paused set_pageBusy set_sending]; try done.
    + apply Forall_app. split; [done|]. constructor; [|done].
      apply randomId_wellFormed.
    + apply Forall_forall. intros it [_ Hin]%list_elem_of_filter.
      by eapply Forall_forall in Hwf.
    + destruct (queue (current w tab) !! _) as [old|] eqn:Hold; [|done]. cbn.
      apply Forall_insert; [done|].
      eapply Forall_lookup_1 in Hwf as (Hlen&Hhex&_); [|exact Hold].
      split_and!; [done..|]. apply trim_idemp.
    + destruct Hwf; [done|]. done.
  - assert (tab0 = tab) as -> by congruence.
    rewrite maybeSendNext_run. unfold final; cbn [fst snd].
    by rewrite current_holding_eq, queue_afterSend.
Qed.

(** X12.  Items stay as the coordinator makes them: if every item in the
    queue of a tab has an id of sixteen lower-case hex digits and a text
    that [trim] leaves unchanged, so has every item after any run of
    triggers; enqueueing and editing never store an untrimmed text. *)
Theorem queued_items_stay_well_formed
    (ts : list (trigger * env)) (w : world) (tab : Z) :
  Forall wellFormed (queue (current w tab)) →
  Forall wellFormed (queue (current (run ts w).1 tab)).
Proof.
  revert w. induction ts as [|[t e] ts IH]; intros w Hwf; [done|].
  rewrite run_cons. cbn [fst snd]. by apply IH, step_keeps_wellFormed.
Qed.

Lemma queued_items_stay_well_formed_witness :
  Forall wellFormed (queue (current blank 7)) ∧
  Forall wellFormed (queue (current twoQueued 7)).
Proof.
  assert (H : Forall wellFormed (queue (current blank 7))) by constructor.
  split; [exact H|].
  apply (queued_items_stay_well_formed
           [(enqueue "a", calm); (enqueue " b ", later)] blank 7 H).
Defined.

(** X13.  Identifiers stay distinct as long as the random source does not
    repeat itself: if the ids in the queue of a tab are pairwise distinct,
    the bytes drawn for the tab over a run are pairwise distinct draws, and
    no draw spells an id already queued, the ids in the queue after the run
    are pairwise distinct.  No trigger duplicates an item. *)
Theorem queued_ids_stay_distinct
    (ts : list (trigger * env)) (w : world) (tab : Z) :
  NoDup (id <$> queue (current w tab)) →
  NoDup (draws tab ts) →
  (∀ it d, it ∈ queue (current w tab) → d ∈ draws tab ts →
     id it ≠ mjoin (toHex2 <$> d)) →
  NoDup (id <$> queue (current (run ts w).1 tab)).
Proof.
  intros Hq Hd Hnew.
  eapply sublist_NoDup; [|apply run_queue_sublist].
  rewrite fmap_app. apply NoDup_app. split_and!; [done| |by apply enqueued_ids_fresh].
  intros i (it&->&Hit)%list_elem_of_fmap. rewrite enqueued_ids.
  intros (d&Hi&Hdin)%list_elem_of_fmap. by eapply Hnew.
Qed.

Lemma queued_ids_stay_distinct_witness :
  let ts := [(enqueue "a", calm); (enqueue " b ", later)] in
  NoDup (draws 7 ts) ∧ NoDup (id <$> queue (current (run ts blank).1 7)).
Proof.
  cbv zeta.
  assert (Hd : NoDup (draws 7 [(enqueue "a", calm); (enqueue " b ", later)])).
  { apply NoDup_ListNoDup. vm_compute.
    constructor; [|constructor; [|constructor]].
    - intros [H|[]]. discriminate H.
    - intros []. }
  split; [exact Hd|].
  apply (queued_ids_stay_distinct _ blank 7); [constructor|exact Hd|].
  intros it d Hin. by apply not_elem_of_nil in Hin.
Defined.

(** * The content script *)

(** ** Escaping *)

Lemma replaceAll_app c r s1 s2 :
  replaceAll c r (s1 ++ s2) = replaceAll c r s1 ++ replaceAll c r s2.
Proof. unfold replaceAll. apply bind_app. Qed.

Lemma escape_one (x : N) :
  replaceAll 39 (lit "&#39;")
    (replaceAll 34 (lit "&quot;")
       (replaceAll 62 (lit "&gt;")
          (replaceAll 60 (lit "&lt;")
             (replaceAll 38 (lit "&amp;") [x])))) = entity x.
Proof.
  unfold entity.
  destruct (N.eqb_spec x 38) as [->|H38]; [reflexivity|].
  destruct (N.eqb_spec x 60) as [->|H60]; [reflexivity|].
  destruct (N.eqb_spec x 62) as [->|H62]; [reflexivity|].
  destruct (N.eqb_spec x 34) as [->|H34]; [reflexivity|].
  destruct (N.eqb_spec x 39) as [->|H39]; [reflexivity|].
  apply N.eqb_neq in H38, H60, H62, H34, H39.
  unfold replaceAll. cbn. rewrite H38. cbn. rewrite H60. cbn. rewrite H62. cbn.
  rewrite H34. cbn. by rewrite H39.
Qed.

Lemma escape_chain (l : jsstring) :
  replaceAll 39 (lit "&#39;")
    (replaceAll 34 (lit "&quot;")
       (replaceAll 62 (lit "&gt;")
          (replaceAll 60 (lit "&lt;")
             (replaceAll 38 (lit "&amp;") l)))) = l ≫= entity.
Proof.
  induction l as [|x l IH]; [done|].
  change (x :: l) with ([x] ++ l).
  rewrite !replaceAll_app, IH, escape_one. reflexivity.
Qed.

Lemma entity_no_markup x : Forall (λ c, isMarkup c = false) (entity x).
Proof.
  unfold entity.
  destruct (N.eqb_spec x 38); [by repeat constructor|].
  destruct (N.eqb_spec x 60); [by repeat constructor|].
  destruct (N.eqb_spec x 62); [by repeat constructor|].
  destruct (N.eqb_spec x 34); [by repeat constructor|].
  destruct (N.eqb_spec x 39); [by repeat constructor|].
  repeat constructor. unfold isMarkup.
  by repeat (rewrite (proj2 (N.eqb_neq _ _)) by done).
Qed.

Lemma entity_prefix_inj x y a b :
  entity x ++ a = entity y ++ b → x = y ∧ a = b.
Proof.
  unfold entity.
  destruct (N.eqb_spec x 38) as [->|?]; [|destruct (N.eqb_spec x 60) as [->|?];
    [|destruct (N.eqb_spec x 62) as [->|?]; [|destruct (N.eqb_spec x 34) as [->|?];
      [|destruct (N.eqb_spec x 39) as [->|?]]]]];
  (destruct (N.eqb_spec y 38) as [->|?]; [|destruct (N.eqb_spec y 60) as [->|?];
    [|destruct (N.eqb_spec y 62) as [->|?]; [|destruct (N.eqb_spec y 34) as [->|?];
      [|destruct (N.eqb_spec y 39) as [->|?]]]]]);
  vm_compute (lit _); cbn [app]; intros Heq; simplify_eq; done.
Qed.

Lemma entities_inj (l l' : jsstring) : l ≫= entity = l' ≫= entity → l = l'.
Proof.
  revert l'. induction l as [|x l IH]; intros [|y l']; cbn.
  - done.
  - intros Heq. exfalso. unfold entity in Heq.
    repeat (destruct (_ =? _)%N in Heq; [discriminate Heq|]). discriminate Heq.
  - intros Heq. exfalso. unfold entity in Heq.
    repeat (destruct (_ =? _)%N in Heq; [discriminate Heq|]). discriminate Heq.
  - intros [-> ?]%entity_prefix_inj. f_equal. by apply IH.
Qed.

(** X14.  [escapeHtml] writes, for each code unit of its input in turn, the
    entity of that code unit or the code unit itself: the five passes never
    escape what an earlier pass wrote.  Its output holds no '<', '>',
    double or single quote, and two inputs with the same output have the
    same string value. *)
Theorem escapeHtml_is_one_pass_and_safe (s s' : jsval) :
  escapeHtml s = ToString s ≫= entity ∧
  Forall (λ c, isMarkup c = false) (escapeHtml s) ∧
  (escapeHtml s = escapeHtml s' → ToString s = ToString s').
Proof.
  unfold escapeHtml. rewrite !escape_chain. split_and!.
  - done.
  - apply Forall_bind, Forall_forall. intros x _. apply entity_no_markup.
  - apply entities_inj.
Qed.

(** ** The name of a download *)

Lemma dashRuns_name_chars b (s : jsstring) :
  Forall (λ c, isNameChar c || isWhiteSpace c = true) s →
  Forall (λ c, isNameChar c = true) (dashRuns b s).
Proof.
  intros Hs. revert b. induction Hs as [|c s Hc _ IH]; intros b; [constructor|].
  cbn [dashRuns]. destruct (isWhiteSpace c) eqn:Hws.
  - destruct b; [apply IH|]. constructor; [done|apply IH].
  - constructor; [|apply IH]. rewrite ?Hws in Hc. by rewrite orb_false_r in Hc.
Qed.

Lemma trim_Forall (P : N → Prop) (s : jsstring) : Forall P s → Forall P (trim s).
Proof.
  destruct (trim_spec s) as (pre&post&Heq&_). intros Hs.
  rewrite Heq in Hs. by apply Forall_app in Hs as [_ [? _]%Forall_app].
Qed.

(** X15.  The file name of a download is always usable: it is a base of
    one to eighty ASCII letters, digits, '-' and '_' followed by ".md",
    whatever the title of the conversation holds; a title that leaves no
    such character gives "conversation.md".  An empty document starts no
    download, and any other is downloaded unchanged under that name. *)
Theorem download_name_is_safe (md name : jsstring) :
  (∃ base,
     downloadName name = base ++ lit ".md" ∧ base ≠ [] ∧
     (length base ≤ 80)%nat ∧ Forall (λ c, isNameChar c = true) base) ∧
  ((∀ c, c ∈ name → isNameChar c = false) →
     downloadName name = lit "conversation.md") ∧
  downloadMarkdownFile md name =
    if bool_decide (md = []) then None else Some (downloadName name, md).
Proof.
  split_and!; [| |done].
  - unfold downloadName.
    set (name' := if bool_decide (name = []) then lit "conversation" else name).
    set (base := take 80 _).
    assert (Hbase : Forall (λ c, isNameChar c = true) base ∧ (length base ≤ 80)%nat).
    { split; [|unfold base; rewrite length_take; lia].
      apply Forall_take, dashRuns_name_chars, trim_Forall, Forall_forall.
      by intros c [? _]%list_elem_of_filter. }
    case_bool_decide as Hempty.
    + exists (lit "conversation"). split_and!; [done|done|cbn; lia|by repeat constructor].
    + exists base. by destruct Hbase.
  - intros Hnone. destruct (decide (name = [])) as [->|Hname]; [reflexivity|].
    unfold downloadName. rewrite (bool_decide_eq_false_2 (name = [])) by done.
    assert (Hkept : Forall (λ c, isWhiteSpace c = true)
                      (filter (λ c, isNameChar c || isWhiteSpace c = true) name)).
    { apply Forall_forall. intros c [Hc Hin]%list_elem_of_filter.
      by rewrite (Hnone c Hin) in Hc. }
    by rewrite (trim_whitespace _ Hkept).
Qed.

(** ** Reporting busy and idle *)

Lemma reports_cons o os lastB :
  reports (o :: os) lastB =
  let r := reportBusy (obs_valid o) (obs_claude o) (obs_stop o) (obs_streaming o) lastB in
  ((reports os r.1).1, r.2 ++ (reports os r.1).2).
Proof. reflexivity. Qed.

Lemma reportBusy_cases o lastB :
  let r := reportBusy (obs_valid o) (obs_claude o) (obs_stop o) (obs_streaming o) lastB in
  r.1 = Some (observedBusy o) ∧
  (lastB = Some (observedBusy o) ∧ r.2 = [] ∨
   lastB ≠ Some (observedBusy o) ∧
   r.2 = safeSendMessage (obs_valid o)
           (Message "PAGE_STATE" None (JBool (observedBusy o))
              JUndefined JUndefined JUndefined)).
Proof.
  unfold reportBusy, observedBusy. cbv zeta.
  case_bool_decide as Hne; cbn [fst snd].
  - split; [done|right]. split; [congruence|done].
  - split; [done|left]. done.
Qed.

Lemma reports_spec (os : list observation) (lastB : option bool) :
  let r := reports os lastB in
  Forall (λ m, type m = "PAGE_STATE" ∧ ∃ b, busy m = JBool b) r.2 ∧
  r.1 = from_option Some lastB (last (observedBusy <$> os)) ∧
  (Forall (λ o, obs_valid o = true) os →
   alternating lastB ((λ m, ToBoolean (busy m)) <$> r.2) ∧
   r.1 = from_option (λ m, Some (ToBoolean (busy m))) lastB (last r.2)).
Proof.
  cbv zeta. revert lastB. induction os as [|o os IH]; intros lastB.
  - cbn. split_and!; [constructor|done|]. intros _. done.
  - rewrite reports_cons. cbv zeta. cbn [fst snd].
    destruct (reportBusy_cases o lastB) as (H1&Hcase). cbv zeta in H1, Hcase.
    rewrite H1. destruct (IH (Some (observedBusy o))) as (Hty&Hlast&Hvalid).
    split_and!.
    + apply Forall_app. split; [|done].
      destruct Hcase as [[_ ->]|[_ ->]]; [constructor|].
      unfold safeSendMessage. destruct (obs_valid o); repeat constructor; cbn; eauto.
    + rewrite Hlast, fmap_cons. destruct os as [|o' os']; [done|].
      rewrite fmap_cons, last_cons_cons.
      destruct (last (observedBusy o' :: (observedBusy <$> os'))) eqn:Hl; [done|].
      by apply last_None in Hl.
    + intros Hall. apply Forall_cons in Hall as [Hv Hall].
      destruct (Hvalid Hall) as (Halt&Hend).
      destruct Hcase as [[-> ->]|[Hne ->]]; cbn [app].
      * split; [done|]. exact Hend.
      * rewrite Hv. cbn [safeSendMessage app]. rewrite fmap_cons.
        cbn [busy ToBoolean alternating].
        split; [split; [congruence|done]|].
        rewrite Hend.
        destruct ((reports os (Some (observedBusy o))).2) as [|m' ms]; [done|].
        rewrite last_cons_cons.
        destruct (last (m' :: ms)) eqn:Hl; [done|]. by apply last_None in Hl.
Qed.

(** X16.  The state watcher reports changes only.  Whatever it observes,
    every message it sends is a 'PAGE_STATE' with a boolean, and it ends up
    remembering the last observation.  While the extension context is
    valid, no two reports in a row carry the same value, the first differs
    from what was remembered before, and what is remembered at the end is
    what the last report said. *)
Theorem watcher_reports_changes_only (os : list observation) (lastB : option bool) :
  let r := reports os lastB in
  Forall (λ m, type m = "PAGE_STATE" ∧ ∃ b, busy m = JBool b) r.2 ∧
  r.1 = from_option Some lastB (last (observedBusy <$> os)) ∧
  (Forall (λ o, obs_valid o = true) os →
   alternating lastB ((λ m, ToBoolean (busy m)) <$> r.2) ∧
   r.1 = from_option (λ m, Some (ToBoolean (busy m))) lastB (last r.2)).
Proof. apply reports_spec. Qed.

Lemma watcher_reports_changes_only_witness :
  let os := [Observation true false true false; Observation true false true false;
             Observation true false false false] in
  Forall (λ o, obs_valid o = true) os ∧
  alternating None ((λ m, ToBoolean (busy m)) <$> (reports os None).2) ∧
  (λ m, ToBoolean (busy m)) <$> (reports os None).2 = [true; false].
Proof.
  cbv zeta.
  assert (H : Forall (λ o, obs_valid o = true)
                [Observation true false true false; Observation true false true false;
                 Observation true false false false]) by (repeat constructor).
  split_and!; [exact H| |reflexivity].
  apply (watcher_reports_changes_only _ None), H.
Defined.

Lemma page_state_sets_pageBusy tab e m w :
  tab ≠ 0 → type m = "PAGE_STATE" →
  pageBusy (current (final (step (Incoming m (Some tab)) e w)) tab) = ToBoolean (busy m).
Proof.
  intros Hnz Hty. cbn [step].
  rewrite (onMessage_routed m (Some tab) tab eq_refl Hnz), (handle_PAGE_STATE _ _ Hty).
  rewrite on_PAGE_STATE_run.
  destruct (negb _ && negb _); unfold final; cbn [fst snd];
    by rewrite current_holding_eq, ?pageBusy_afterSend.
Qed.

Lemma run_page_states tab e ms w :
  tab ≠ 0 → Forall (λ m, type m = "PAGE_STATE") ms →
  pageBusy (current (run (deliver tab e ms) w).1 tab) =
  from_option (λ m, ToBoolean (busy m)) (pageBusy (current w tab)) (last ms).
Proof.
  intros Hnz Hall. revert w. induction Hall as [|m ms Hm _ IH]; intros w; [done|].
  unfold deliver. rewrite fmap_cons, run_cons. cbn [fst snd].
  fold (deliver tab e ms). rewrite IH, (page_state_sets_pageBusy _ _ _ _ Hnz Hm).
  destruct ms as [|m' ms]; [done|]. rewrite last_cons_cons.
  destruct (last (m' :: ms)) eqn:Hl; [done|]. by apply last_None in Hl.
Qed.

Lemma reports_same (os : list observation) (b : bool) :
  Forall (λ o, observedBusy o = b) os → reports os (Some b) = (Some b, []).
Proof.
  induction 1 as [|o os Ho _ IH]; [done|].
  rewrite reports_cons. cbv zeta.
  destruct (reportBusy_cases o (Some b)) as (H1&Hcase). cbv zeta in H1, Hcase.
  destruct Hcase as [[_ Hr]|[Hne _]]; [|congruence].
  by rewrite H1, Hr, Ho, IH.
Qed.

(** X17.  Fed with the reports of the state watcher, the coordinator knows
    what the watcher last told it: after the reports for any observations
    have been handled, [pageBusy] is what the last report said, and is
    unchanged when nothing was reported.  That is the last observation of
    the page when the extension context was valid at every observation and
    the watcher started with nothing remembered, or remembering the
    [pageBusy] the coordinator has.  Without a valid context it need not be:
    a first observation made while the context is invalid is remembered but
    not reported, and neither are the observations of the same state that
    follow, so that [pageBusy] stays as it was whatever the page does. *)
Theorem coordinator_tracks_the_page
    (os : list observation) (lastB : option bool) (tab : Z) (e : env) (w : world) :
  tab ≠ 0 →
  let r := reports os lastB in
  let s' := current (run (deliver tab e r.2) w).1 tab in
  pageBusy s' =
    from_option (λ m, ToBoolean (busy m)) (pageBusy (current w tab)) (last r.2) ∧
  (Forall (λ o, obs_valid o = true) os →
   lastB = None ∨ lastB = Some (pageBusy (current w tab)) →
   pageBusy s' = default (pageBusy (current w tab)) (last (observedBusy <$> os))) ∧
  (∀ o os', os = o :: os' → obs_valid o = false →
     Forall (λ o', observedBusy o' = observedBusy o) os' →
     r.2 = [] ∧ r.1 = Some (observedBusy o) ∧
     pageBusy s' = pageBusy (current w tab)).
Proof.
  intros Hnz r s'. subst r s'.
  destruct (reports_spec os lastB) as (Hty&Hmem&Hv). cbv zeta in Hty, Hmem, Hv.
  assert (Hrun : pageBusy (current (run (deliver tab e (reports os lastB).2) w).1 tab) =
                 from_option (λ m, ToBoolean (busy m)) (pageBusy (current w tab))
                   (last (reports os lastB).2)).
  { apply run_page_states; [done|].
    eapply Forall_impl; [exact Hty|]. by intros ? [? _]. }
  split_and!; [exact Hrun| |].
  - intros Hvalid Hlast. destruct (Hv Hvalid) as (_&Hend).
    rewrite Hrun. rewrite Hmem in Hend.
    destruct (last (reports os lastB).2) as [m|], (last (observedBusy <$> os)) as [b|];
      cbn in *.
    + congruence.
    + destruct Hlast; congruence.
    + destruct Hlast; congruence.
    + done.
  - intros o os' -> Hinv Hsame.
    assert (Hnone : (reports (o :: os') lastB).2 = [] ∧
                    (reports (o :: os') lastB).1 = Some (observedBusy o)).
    { rewrite reports_cons. cbv zeta. cbn [fst snd].
      destruct (reportBusy_cases o lastB) as (H1&Hcase). cbv zeta in H1, Hcase.
      rewrite H1, (reports_same os' _ Hsame). cbn [fst snd]. rewrite app_nil_r.
      split; [|done]. destruct Hcase as [[_ ->]|[_ ->]]; [done|]. by rewrite Hinv. }
    destruct Hnone as [Hnone Hrem]. split_and!; [done..|].
    rewrite Hrun, Hnone. done.
Qed.

Lemma coordinator_tracks_the_page_witness :
  let os := [Observation true false true false; Observation true false false false;
             Observation true true false true] in
  let late := [Observation false false true false; Observation true false true false] in
  7 ≠ 0 ∧
  pageBusy (current (run (deliver 7 calm (reports os None).2) twoQueued).1 7) = true ∧
  (reports late None).2 = [] ∧
  pageBusy (current (run (deliver 7 calm (reports late None).2) twoQueued).1 7) = false.
Proof.
  cbv zeta.
  assert (Hnz : 7 ≠ 0) by lia.
  split_and!; [exact Hnz| | |].
  - etrans; [apply (coordinator_tracks_the_page _ None 7 calm twoQueued Hnz);
               [by repeat constructor|by left]|].
    reflexivity.
  - eapply (coordinator_tracks_the_page _ None 7 calm twoQueued Hnz);
      [reflexivity|reflexivity|by repeat constructor].
  - etrans; [eapply (coordinator_tracks_the_page _ None 7 calm twoQueued Hnz);
               [reflexivity|reflexivity|by repeat constructor]|].
    reflexivity.
Defined.

(** ** A dispatch and its answer *)



(** ** The Enter key *)

(** X19.  A typed message never jumps the queue.  With the local state the
    last 'QUEUE_UPDATED' left, a plain Enter on a non-empty text in the
    focused editor is left to the page only when the broadcast queue was
    empty, the tab unpaused and the page idle; otherwise the handler stops
    the event and clears the editor, and sends 'QUEUE_ADD' with the text if
    the extension context is valid.  With the context gone nothing is sent:
    the text is neither submitted nor queued.  Whatever the event, the
    handler sends at most that one message, never for an empty text, and
    never without stopping the event; Shift+Enter without Alt is never
    touched. *)
Theorem typed_text_never_jumps_the_queue
    (valid focused stop : bool) (text : jsstring) (l0 : local)
    (typeAndSend : jsstring → option thrown) (q : list item) (p : bool)
    (ev : keyEvent) :
  let l := (contentOnMessage valid typeAndSend l0 (QUEUE_UPDATED q p)).1 in
  let acts := onKeydown valid focused stop text l ev in
  let add := Message "QUEUE_ADD" None JUndefined (JString text) JUndefined JUndefined in
  (∀ m, Send m ∈ acts →
     valid = true ∧ m = add ∧ text ≠ [] ∧ focused = true ∧ key ev = "Enter" ∧
     acts = [PreventDefault; StopPropagation; Send add; ClearEditor]) ∧
  (focused = true → key ev = "Enter" → text ≠ [] →
   altKey ev = false → metaKey ev = false → ctrlKey ev = false → shiftKey ev = false →
     (acts = [] ↔ q = [] ∧ p = false ∧ stop = false) ∧
     (acts ≠ [] →
        acts = if valid
               then [PreventDefault; StopPropagation; Send add; ClearEditor]
               else [PreventDefault; StopPropagation; ClearEditor])) ∧
  (shiftKey ev = true → altKey ev = false → acts = []).
Proof.
  cbv zeta. cbn [contentOnMessage fst]. unfold onKeydown, updateLocalQueueState.
  cbn [localQueueEmpty localPaused].
  split_and!.
  - intros m. destruct focused; cbn [negb]; [|by intros ?%not_elem_of_nil].
    destruct (altKey ev); cbn [andb negb].
    + destruct (String.eqb_spec (key ev) "Enter") as [Hk|Hk]; [|by intros ?%not_elem_of_nil].
      case_bool_decide as Ht; destruct valid;
        cbn [negb safeSendMessage fmap list_fmap app]; rewrite !elem_of_cons;
        intros [?|[?|Hin]]; try done.
      * by apply not_elem_of_nil in Hin.
      * by apply not_elem_of_nil in Hin.
      * destruct Hin as [[= <-]|[?|?%not_elem_of_nil]]; done.
      * destruct Hin as [?|?%not_elem_of_nil]; done.
    + destruct (metaKey ev), (ctrlKey ev); cbn [andb negb]; try by intros ?%not_elem_of_nil.
      destruct (String.eqb_spec (key ev) "Enter") as [Hk|Hk]; cbn [andb];
        [|by intros ?%not_elem_of_nil].
      destruct (shiftKey ev); cbn [negb]; [by intros ?%not_elem_of_nil|].
      case_bool_decide as Ht; [by intros ?%not_elem_of_nil|].
      destruct (bool_decide (length q = 0%nat) && negb p && negb stop);
        [by intros ?%not_elem_of_nil|].
      destruct valid; cbn [safeSendMessage fmap list_fmap app]; rewrite !elem_of_cons.
      * intros [?|[?|[[= <-]|[?|?%not_elem_of_nil]]]]; done.
      * intros [?|[?|[?|?%not_elem_of_nil]]]; done.
  - intros -> Hk Ht -> -> -> ->. rewrite Hk. cbn [negb andb String.eqb].
    rewrite (bool_decide_eq_false_2 (text = [])) by done.
    destruct q as [|it q], p, stop, valid; cbn; split; try done; split; try done;
      intros (?&?&?); done.
  - intros -> ->. cbn [negb andb]. destruct focused; [|done]. cbn [negb].
    by rewrite !andb_false_r.
Qed.

(** ** Reading the editor *)

Lemma dropNewlines_head (s : jsstring) : head (dropNewlines s) ≠ Some 10%N.
Proof.
  induction s as [|c s IH]; [done|]. cbn [dropNewlines].
  destruct (N.eqb_spec c 10); [done|]. cbn. congruence.
Qed.

Lemma dropNewlinesEnd_last (s : jsstring) : last (dropNewlinesEnd s) ≠ Some 10%N.
Proof. unfold dropNewlinesEnd. rewrite last_reverse. apply dropNewlines_head. Qed.

Lemma dropNewlines_suffix (s : jsstring) : ∃ pre, s = pre ++ dropNewlines s.
Proof.
  induction s as [|c s (pre&Hs)]; [by exists []|]. cbn [dropNewlines].
  destruct (c =? 10)%N; [|by exists []].
  exists (c :: pre). cbn. congruence.
Qed.

Lemma dropNewlinesEnd_head (s : jsstring) :
  head s ≠ Some 10%N → head (dropNewlinesEnd s) ≠ Some 10%N.
Proof.
  intros Hs. unfold dropNewlinesEnd.
  destruct (dropNewlines_suffix (reverse s)) as (pre&Heq).
  apply (f_equal reverse) in Heq. rewrite reverse_involutive, reverse_app in Heq.
  destruct (reverse (dropNewlines (reverse s))) as [|c r]; [done|].
  rewrite Heq in Hs. exact Hs.
Qed.

Lemma trim_no_newline (s : jsstring) :
  head (trim s) ≠ Some 10%N ∧ last (trim s) ≠ Some 10%N.
Proof.
  destruct (trim_spec s) as (_&_&_&_&_&Hhd&Hlast).
  split; intros H; [apply Hhd in H|apply Hlast in H]; done.
Qed.

Lemma dropNewlines_snoc (s : jsstring) (c : N) :
  c ≠ 10%N → dropNewlines (s ++ [c]) = dropNewlines s ++ [c].
Proof.
  intros Hc. induction s as [|x s IH]; cbn [app dropNewlines].
  - by destruct (N.eqb_spec c 10).
  - by destruct (x =? 10)%N.
Qed.

Lemma dropNewlinesEnd_cons (s : jsstring) (c : N) :
  c ≠ 10%N → dropNewlinesEnd (c :: s) = c :: dropNewlinesEnd s.
Proof.
  intros Hc. unfold dropNewlinesEnd.
  by rewrite reverse_cons, dropNewlines_snoc, reverse_app.
Qed.

(** X20.  The text read from the composer never starts or ends with a line
    feed (U+000A), in any of the three shapes of the composer, and is empty
    when there is no composer.  For a textarea, and for a rich editor
    without paragraphs, it has no white space at all at either end.  For a
    rich editor with paragraphs only line feeds are stripped: a first
    paragraph that starts with any other code unit, a carriage return or a
    space included, gives a text that starts with it. *)
Theorem editor_text_has_no_outer_line_feeds (ed : editor) :
  let t := getEditorPlainText ed in
  head t ≠ Some 10%N ∧ last t ≠ Some 10%N ∧
  (ed = NoEditor → t = []) ∧
  ((∃ v, ed = WithValue v) ∨ (∃ it, ed = Rich [] it) →
     ∀ c, head t = Some c ∨ last t = Some c → isWhiteSpace c = false) ∧
  (∀ c p ps it, ed = Rich ((c :: p) :: ps) it → c ≠ 10%N → head t = Some c).
Proof.
  cbv zeta. split_and!.
  - destruct ed as [|v|ps it]; cbn [getEditorPlainText]; [done|apply trim_no_newline|].
    case_bool_decide; [apply trim_no_newline|].
    apply dropNewlinesEnd_head, dropNewlines_head.
  - destruct ed as [|v|ps it]; cbn [getEditorPlainText]; [done|apply trim_no_newline|].
    case_bool_decide; [apply trim_no_newline|]. apply dropNewlinesEnd_last.
  - by intros ->.
  - intros [(v&->)|(v&->)] c; cbn [getEditorPlainText];
      rewrite ?bool_decide_eq_true_2 by done;
      destruct (trim_spec v) as (_&_&_&_&_&Hhd&Hlast); intros [?|?]; eauto.
  - intros c p ps it -> Hc. cbn [getEditorPlainText].
    rewrite bool_decide_eq_false_2 by done.
    rewrite fmap_cons, dropNewlinesEnd_cons by done.
    destruct ps as [|p' ps]; cbn [fmap list_fmap joinLines app dropNewlines];
      (destruct (N.eqb_spec c 10); [done|]); by rewrite dropNewlinesEnd_cons.
Qed.

(** ** Editing an item in the popover *)

Lemma or_nonempty (i : jsstring) : i ≠ [] → ToString (or (JString i) (JString [])) = i.
Proof.
  intros Hi. unfold or. cbn. by rewrite bool_decide_eq_false_2.
Qed.

Lemma trim_or_trimmed (c : jsstring) :
  trim (ToString (or (JString (trim c)) (JString []))) = trim c.
Proof.
  unfold or. cbn. case_bool_decide as Hc; cbn.
  - by rewrite Hc.
  - apply trim_idemp.
Qed.

(** X21.  An inline edit stores what was typed.  [commitInlineEdit] sends
    at most one message, a 'QUEUE_UPDATE' with the id of the element and
    the trimmed content, and none when the element is not being edited, has
    no id, or the trimmed content is the text it had; handled by the
    coordinator for a tab whose queue has an item of that id, the message
    leaves the queue with the same ids in the same order and with an item
    of that id whose text is exactly the trimmed content, and is answered
    [{ok: true}]. *)
Theorem inline_edit_stores_what_was_typed
    (editable : bool) (i : option jsstring) (prev content : jsstring)
    (tab : Z) (e : env) (w : world) :
  let ms := commitInlineEdit true editable i prev content in
  (∀ m, m ∈ ms →
     ms = [m] ∧ editable = true ∧ trim content ≠ prev ∧
     ∃ i', i = Some i' ∧ i' ≠ [] ∧
           m = Message "QUEUE_UPDATE" None JUndefined (JString (trim content))
                 (JString i') JUndefined) ∧
  (trim content = prev → ms = []) ∧
  (∀ m i' it,
     m ∈ ms → i = Some i' → tab ≠ 0 →
     it ∈ queue (current w tab) → id it = i' →
     let r := onMessage m (Some tab) e w in
     Item i' (trim content) ∈ queue (current (final r) tab) ∧
     id <$> queue (current (final r) tab) = id <$> queue (current w tab) ∧
     SendResponse ROk ∈ effects r).
Proof.
  cbv zeta.
  assert (Hsent : ∀ m, m ∈ commitInlineEdit true editable i prev content →
     commitInlineEdit true editable i prev content = [m] ∧ editable = true ∧
     trim content ≠ prev ∧
     ∃ i', i = Some i' ∧ i' ≠ [] ∧
           m = Message "QUEUE_UPDATE" None JUndefined (JString (trim content))
                 (JString i') JUndefined).
  { intros m. unfold commitInlineEdit.
    destruct editable; cbn [negb]; [|by intros ?%not_elem_of_nil].
    destruct i as [i'|]; [|by intros ?%not_elem_of_nil].
    case_bool_decide as Hprev; cbn [orb]; [by intros ?%not_elem_of_nil|].
    case_bool_decide as Hi; [by intros ?%not_elem_of_nil|].
    cbn [safeSendMessage]. intros ->%list_elem_of_singleton. eauto 10. }
  split_and!; [exact Hsent| |].
  - intros Hprev. unfold commitInlineEdit.
    destruct editable; cbn [negb]; [|done]. destruct i; [|done].
    by rewrite (bool_decide_eq_true_2 _ Hprev).
  - intros m i' it Hm Hi Hnz Hin Hid.
    destruct (Hsent m Hm) as (_&_&_&i''&Hi'&Hne&->).
    assert (i'' = i') as -> by congruence.
    set (m := Message "QUEUE_UPDATE" None JUndefined (JString (trim content))
                (JString i') JUndefined).
    rewrite (onMessage_routed m (Some tab) tab eq_refl Hnz),
      (handle_QUEUE_UPDATE tab m eq_refl), on_QUEUE_UPDATE_run.
    unfold m. cbn [msg_id msg_text]. rewrite (or_nonempty i' Hne), trim_or_trimmed.
    set (p := λ it0 : item, bool_decide (id it0 = i')).
    assert (Hidx : findIndex p (queue (current w tab)) ≠ -1).
    { intros Habs. pose proof (proj1 (findIndex_absent p _) Habs it Hin) as Hp.
      unfold p in Hp. by rewrite bool_decide_eq_true_2 in Hp. }
    destruct (findIndex_first p _ Hidx) as (old&Hold&Hp&_).
    unfold p in Hp. apply bool_decide_eq_true in Hp.
    destruct (Z.eqb_spec (findIndex p (queue (current w tab))) (-1)) as [?|_]; [done|].
    cbn [negb]. unfold final, effects; cbn [fst snd].
    rewrite current_holding_eq, Hold. cbn [queue set_queue]. rewrite Hp.
    split_and!.
    + apply list_elem_of_lookup. eexists. apply list_lookup_insert_eq.
      by eapply lookup_lt_Some.
    + rewrite <- Hp. by apply fmap_id_insert.
    + rewrite elem_of_app. right. by left.
Qed.

(** ** Calls that can be repeated *)

Lemma handle_PAUSE tab msg : type msg = "PAUSE" → handle tab msg = on_PAUSE tab msg.
Proof. unfold handle. by intros ->. Qed.

Lemma filter_twice (q : list item) (v : jsval) :
  filter (λ it, negb (strictEq (JString (id it)) v))
    (filter (λ it, negb (strictEq (JString (id it)) v)) q) =
  filter (λ it, negb (strictEq (JString (id it)) v)) q.
Proof.
  apply filter_absent. intros it [Hkeep _]%list_elem_of_filter Heq.
  apply Is_true_true, negb_true_iff in Hkeep.
  assert (strictEq (JString (id it)) v = true) by by apply strictEq_string.
  congruence.
Qed.

(** X22.  'PAUSE', 'QUEUE_CLEAR' and 'QUEUE_REMOVE' can be repeated: the
    same message handled a second time, right after the first, leaves every
    record and the whole of storage as the first time left them, and logs
    the same save, broadcast and answer again. *)
Theorem pause_clear_remove_are_idempotent
    (msg : message) (sender : option Z) (tab : Z) (e : env) (w : world) :
  resolveTab sender msg = Some tab → tab ≠ 0 →
  type msg = "PAUSE" ∨ type msg = "QUEUE_CLEAR" ∨ type msg = "QUEUE_REMOVE" →
  let r1 := onMessage msg sender e w in
  let r2 := onMessage msg sender e (final r1) in
  (∀ tab', current (final r2) tab' = current (final r1) tab') ∧
  storage (final r2) = storage (final r1) ∧
  effects r2 = effects r1.
Proof.
  intros Htab Hnz Hty r1 r2. subst r1 r2.
  rewrite !(onMessage_routed _ _ _ Htab Hnz).
  assert (Hsame : ∀ s w0,
    (∀ tab', current (holding tab s (stored (keyFor tab) (durable s)
               (holding tab s (stored (keyFor tab) (durable s) w0)))) tab' =
             current (holding tab s (stored (keyFor tab) (durable s) w0)) tab') ∧
    storage (holding tab s (stored (keyFor tab) (durable s)
               (holding tab s (stored (keyFor tab) (durable s) w0)))) =
    storage (holding tab s (stored (keyFor tab) (durable s) w0))).
  { intros s w0. split.
    - intros tab'. unfold current, holding, stored; cbn [tabState storage].
      by rewrite !insert_insert_eq.
    - unfold holding, stored; cbn [storage]. by rewrite insert_insert_eq. }
  destruct Hty as [Hty|[Hty|Hty]].
  - rewrite !(handle_PAUSE _ _ Hty), !on_PAUSE_run. unfold final, effects; cbn [fst snd].
    rewrite current_holding_eq. cbn [set_paused queue paused pageBusy sending].
    destruct (Hsame (set_paused true (current w tab)) w) as [H1 H2].
    split_and!; [exact H1|exact H2|done].
  - rewrite !(handle_QUEUE_CLEAR _ _ Hty), !on_QUEUE_CLEAR_run.
    unfold final, effects; cbn [fst snd].
    rewrite current_holding_eq. cbn [set_queue queue paused pageBusy sending].
    destruct (Hsame (set_queue [] (current w tab)) w) as [H1 H2].
    split_and!; [exact H1|exact H2|done].
  - rewrite !(handle_QUEUE_REMOVE _ _ Hty), !on_QUEUE_REMOVE_run.
    unfold final, effects; cbn [fst snd].
    rewrite current_holding_eq. cbn [set_queue queue paused pageBusy sending].
    rewrite filter_twice.
    set (s1 := set_queue _ (current w tab)).
    destruct (Hsame s1 w) as [H1 H2].
    split_and!; [exact H1|exact H2|done].
Qed.

Lemma pause_clear_remove_are_idempotent_witness :
  let msg := msgOf "QUEUE_REMOVE" JUndefined (JString idA) in
  let r1 := onMessage msg (Some 7) calm twoQueued in
  let r2 := onMessage msg (Some 7) calm (final r1) in
  type msg = "QUEUE_REMOVE" ∧ queue (current (final r1) 7) = [Item idB (lit "b")] ∧
  storage (final r2) = storage (final r1).
Proof.
  cbv zeta. split_and!; [reflexivity|vm_compute; reflexivity|].
  apply (pause_clear_remove_are_idempotent (msgOf "QUEUE_REMOVE" JUndefined (JString idA))
           (Some 7) 7 calm twoQueued); [reflexivity|lia|by right; right].
Defined.
